(** * tiktok-counts: collection, reconciliation and reporting

    A shallow embedding of [src/tiktok-counts.js] (the script with batched
    scraping, the video-count validation against the last report, totals,
    rankings and the persisted document) together with the properties the
    specification states about it.

    Conventions of the embedding
    - JavaScript numbers that count things are integers ([Z]); loop bounds
      and list positions are [nat].  The counters that the page shows are
      taken as the whole numbers they stand for; statements that add or
      subtract them say so where a double would round.
    - A result entry is either [{ username, ...data }] or
      [{ username, error }]; the two shapes are the constructors of [Entry].
    - The browser is an oracle [web]: the [n]-th navigation of the whole run
      to a given url yields a [PageRun].  Everything the script does around
      it (retry loop, logging, validation) is written in a small monad [M]
      threading the observable environment [Env] and propagating rejected
      promises.
    - [previousResults], a plain JS object used as a dictionary, is the
      [gmap string (option Z)] of its own properties under the prototype
      that an object literal has: the key [__proto__] cannot be assigned a
      number, and a key without an own property reads as the member of
      [Object.prototype] of that name when there is one. *)

From Stdlib Require Import ZArith Ascii String.
From stdpp Require Import base option list gmap strings pretty sorting.

Local Open Scope string_scope.
Local Open Scope Z_scope.
Local Open Scope list_scope.

(** ** Data *)

(** [{ views, link }] *)
Record Video := { views : Z; link : string }.

(** What [page.evaluate] reads from a rendered profile page: the parsed
    follower and like counters and one item per [user-post-item]. *)
Record PageContent := {
  pc_followers : Z;
  pc_likes : Z;
  pc_items : list Video
}.

(** [{ followers, likes, totalViews, totalVideos, videos }] *)
Record Data := {
  followers : Z;
  likes : Z;
  totalViews : Z;
  totalVideos : Z;
  videos : list Video
}.

(** One element of [results]. *)
Inductive Entry :=
| Profile (username : string) (data : Data)
| ErrorEntry (username : string) (error : string).

Definition username (user : Entry) : string :=
  match user with Profile u _ => u | ErrorEntry u _ => u end.

(** [!user.error] *)
Definition no_error (user : Entry) : bool :=
  match user with Profile _ _ => true | ErrorEntry _ _ => false end.

(** [user.totalVideos], [undefined] on an error entry. *)
Definition totalVideos_of (user : Entry) : option Z :=
  match user with Profile _ d => Some (totalVideos d) | ErrorEntry _ _ => None end.

(** The metrics [getTopUsers] is called with. *)
Inductive Metric := Followers | TotalViews | Likes.

(** [user[metric] || 0] *)
Definition metric_of (metric : Metric) (user : Entry) : Z :=
  match user with
  | Profile _ d =>
      match metric with
      | Followers => followers d
      | TotalViews => totalViews d
      | Likes => likes d
      end
  | ErrorEntry _ _ => 0
  end.

(** How a promise settles. *)
Inductive settled (A : Type) :=
| Fulfilled (value : A)
| Rejected (reason : string).
Arguments Fulfilled {A} value.
Arguments Rejected {A} reason.

(** ** The environment and its monad *)

(** One line appended to the retry log:
    [Retrying @username, attempt n - Error: message]. *)
Record RetryLine := {
  rl_username : string;
  rl_attempt : nat;
  rl_message : string
}.

Definition retry_line (username : string) (attempt : nat) (message : string) : RetryLine :=
  {| rl_username := username; rl_attempt := attempt; rl_message := message |}.

Inductive ConsoleMsg :=
| TimeoutExceeded (username : string)
| FewerVideos (username : string) (current previous : Z)
| UpdatedCount (username : string) (count : Z)
| NotCorrected (username : string).

Record Env := {
  navigations : nat;
  appended : list (string * RetryLine);
  console : list ConsoleMsg
}.

Definition M (A : Type) : Type := Env → settled A * Env.

#[export] Instance M_ret : MRet M := λ A a st, (Fulfilled a, st).

#[export] Instance M_bind : MBind M := λ A B f c st,
  match c st with
  | (Fulfilled a, st') => f a st'
  | (Rejected e, st') => (Rejected e, st')
  end.

Definition throw {A} (reason : string) : M A := λ st, (Rejected reason, st).

(** The three ways in which the script changes the environment. *)
Definition navigated (st : Env) : Env :=
  {| navigations := S (navigations st);
     appended := appended st;
     console := console st |}.

Definition logged (path : string) (line : RetryLine) (st : Env) : Env :=
  {| navigations := navigations st;
     appended := appended st ++ [(path, line)];
     console := console st |}.

Definition printed (msg : ConsoleMsg) (st : Env) : Env :=
  {| navigations := navigations st;
     appended := appended st;
     console := console st ++ [msg] |}.

Definition console_emit (msg : ConsoleMsg) : M unit := λ st,
  (Fulfilled tt, printed msg st).

(** [fs.appendFileSync(logFilePath, line)]; an [undefined] path is refused
    with a [TypeError]. *)
Definition appendFileSync (logFilePath : option string) (line : RetryLine) : M unit :=
  match logFilePath with
  | None => throw "TypeError [ERR_INVALID_ARG_TYPE]: The path argument must be of type string"
  | Some path => λ st, (Fulfilled tt, logged path line st)
  end.

(** ** The page *)

(** What one pass through the body of the [try] meets. *)
Inductive PageRun :=
| Throws (message : string)
| ErrorPage
| Rendered (content : PageContent).

(** [haystack.includes(needle)] *)
Fixpoint includes (needle haystack : string) : bool :=
  String.prefix needle haystack ||
  match haystack with
  | EmptyString => false
  | String _ rest => includes needle rest
  end.

Definition sum_views (vs : list Video) : Z :=
  foldl (λ total v, total + views v) 0 vs.

(** The object built by the extraction callback. *)
Definition extract (c : PageContent) : Data :=
  {| followers := pc_followers c;
     likes := pc_likes c;
     totalViews := sum_views (pc_items c);
     totalVideos := Z.of_nat (length (pc_items c));
     videos := pc_items c |}.

Definition profile_url (username : string) : string :=
  "https://www.tiktok.com/@" +:+ username.

Definition not_exist_message (username : string) : string :=
  "User @" +:+ username +:+ " does not exist or is unavailable.".

Definition failed_message : string :=
  "Failed to fetch non-empty videos after retries".

(** ** The retry loop *)

Section Scraper.

(** [web url n]: what the [n]-th navigation of the run finds at [url].
    Launching the browser, opening the page and closing the browser are
    taken to succeed and leave no trace in [Env]. *)
Variable web : string → nat → PageRun.

Definition page_goto (url : string) : M PageRun := λ st,
  (Fulfilled (web url (navigations st)), navigated st).

(** The [while (attempts < retries)] loop; [remaining] is
    [retries - attempts] and [data] the variable of that name.  One
    iteration navigates once; [catch] is the handler of the [try]: a message
    that contains [Timeout] leaves the loop, any other message is appended
    to the log and the loop goes on. *)
Fixpoint attempt_loop (username : string) (logFilePath : option string)
    (remaining attempts : nat) (data : option Data) : M (option Data) :=
  match remaining with
  | O => mret data
  | S remaining' =>
      let attempts := S attempts in
      run ← page_goto (profile_url username);
      let catch (message : string) : M (option Data) :=
        if includes "Timeout" message then
          console_emit (TimeoutExceeded username);; mret data
        else
          appendFileSync logFilePath (retry_line username attempts message);;
          attempt_loop username logFilePath remaining' attempts data
      in
      match run with
      | Throws message => catch message
      | ErrorPage => catch (not_exist_message username)
      | Rendered content =>
          let data := extract content in
          if (0 <? length (videos data))%nat then mret (Some data)
          else attempt_loop username logFilePath remaining' attempts (Some data)
      end
  end.

(** [scrapeTikTokProfile(username, retries, logFilePath)] *)
Definition scrapeTikTokProfile (username : string) (retries : nat)
    (logFilePath : option string) : M Entry :=
  data ← attempt_loop username logFilePath retries 0 None;
  match data with
  | None => mret (ErrorEntry username failed_message)
  | Some d =>
      if (length (videos d) =? 0)%nat then mret (ErrorEntry username failed_message)
      else mret (Profile username d)
  end.

End Scraper.

(** ** Batches *)

(** The [cli-progress] bar as far as the script drives it. *)
Record ProgressBar := {
  bar_total : nat;
  bar_value : nat;
  bar_username : string;
  bar_active : bool
}.

Definition bar_start (total : nat) : ProgressBar :=
  {| bar_total := total; bar_value := 0; bar_username := ""; bar_active := true |}.

Definition bar_increment (bar : ProgressBar) (username : string) : ProgressBar :=
  {| bar_total := bar_total bar;
     bar_value := S (bar_value bar);
     bar_username := "@" +:+ username;
     bar_active := bar_active bar |}.

Definition bar_stop (bar : ProgressBar) : ProgressBar :=
  {| bar_total := bar_total bar;
     bar_value := bar_value bar;
     bar_username := bar_username bar;
     bar_active := false |}.

(** [array.slice(i, j)] for [0 <= i <= j]. *)
Definition slice {A} (i j : nat) (l : list A) : list A := take (j - i) (drop i l).

Section Batches.

Context {R : Type}.

(** [Promise.all] over the promises of one batch.  [batch] pairs each
    username with the way its task settles; [completion] lists batch
    positions in the order in which the promises settle.  A fulfilment
    first runs the [.then] callback (the progress bar moves) and then stores
    the value at the promise's own position; the first rejection rejects the
    whole; the result is delivered once every position holds a value.
    [None]: some promise never settles. *)
Fixpoint Promise_all (batch : list (string * settled R)) (values : list (option R))
    (completion : list nat) (bar : ProgressBar)
    : option (settled (list R) * ProgressBar) :=
  match mapM id values with
  | Some vs => Some (Fulfilled vs, bar)
  | None =>
      match completion with
      | [] => None
      | idx :: rest =>
          match values !! idx, batch !! idx with
          | Some None, Some (username, Fulfilled result) =>
              Promise_all batch (<[idx := Some result]> values) rest
                (bar_increment bar username)
          | Some None, Some (_, Rejected reason) => Some (Rejected reason, bar)
          | _, _ => Promise_all batch values rest bar
          end
      end
  end.

Variable usernames : list string.
Variable batchSize : nat.
(** [task name logFilePath]: how the promise that the task returns for
    [name] settles. *)
Variable task : string → option string → settled R.
Variable logFilePath : option string.
(** [completion i]: the settling order inside the batch that starts at [i]. *)
Variable completion : nat → list nat.

(** [for (let i = 0; i < usernames.length; i += batchSize)], at most [fuel]
    iterations of it.  [None]: the loop has not come to an end, because the
    iterations are used up (a [batchSize] of zero never advances [i]) or
    because a promise never settles. *)
Fixpoint batches_loop (fuel i : nat) (results : list R) (bar : ProgressBar)
    : option (settled (list R) * ProgressBar) :=
  if (i <? length usernames)%nat then
    match fuel with
    | O => None
    | S fuel' =>
        let batch :=
          (λ username, (username, task username logFilePath))
            <$> slice i (i + batchSize) usernames in
        match Promise_all batch (replicate (length batch) None) (completion i) bar with
        | Some (Fulfilled rs, bar') =>
            batches_loop fuel' (i + batchSize)%nat (results ++ rs) bar'
        | Some (Rejected reason, bar') => Some (Rejected reason, bar')
        | None => None
        end
    end
  else Some (Fulfilled results, bar_stop bar).

(** [processInBatches(usernames, batchSize, task, logFilePath)] *)
Definition processInBatches (fuel : nat) : option (settled (list R) * ProgressBar) :=
  batches_loop fuel 0 [] (bar_start (length usernames)).

End Batches.

(** ** The last report *)

Module Totals.
Record t := {
  totalUsers : Z;
  totalVideos : Z;
  totalFollowers : Z;
  totalLikes : Z;
  totalViews : Z
}.
End Totals.

(** [totals] as read back from a report file: any key may be missing. *)
Module PreviousTotals.
Record t := {
  totalUsers : option Z;
  totalVideos : option Z;
  totalFollowers : option Z;
  totalLikes : option Z;
  totalViews : option Z
}.
End PreviousTotals.

Record Report := {
  report_timestamp : string;
  report_results : list Entry;
  report_totals : option PreviousTotals.t
}.

(** [x || 0] on a number that may be [undefined]. *)
Definition or0 (x : option Z) : Z := default 0 x.

(** ** Validation against the last report *)

Definition videoBufferCount : Z := 5.

(** The names of the members of [Object.prototype], which every object
    literal inherits. *)
Definition Object_prototype_keys : list string :=
  ["constructor"; "__defineGetter__"; "__defineSetter__"; "hasOwnProperty";
   "__lookupGetter__"; "__lookupSetter__"; "isPrototypeOf"; "propertyIsEnumerable";
   "toString"; "valueOf"; "__proto__"; "toLocaleString"].

(** What [map[key]] reads on a dictionary of video counts: a number,
    [undefined], or a function or object of [Object.prototype]. *)
Inductive Property :=
| NumberValue (n : Z)
| UndefinedValue
| Inherited.

(** [map[key] = value] for a value that is a number or [undefined], on an
    object literal given by its own properties.  [__proto__] is an accessor
    of [Object.prototype] whose setter ignores such values; the other
    inherited members are writable data properties, so the assignment adds
    an own property as for any other key. *)
Definition Object_set (map : gmap string (option Z)) (key : string) (value : option Z)
    : gmap string (option Z) :=
  if String.eqb key "__proto__" then map else <[key := value]> map.

(** [map[key]] *)
Definition Object_get (map : gmap string (option Z)) (key : string) : Property :=
  match map !! key with
  | Some (Some n) => NumberValue n
  | Some None => UndefinedValue
  | None =>
      if bool_decide (key ∈ Object_prototype_keys) then Inherited else UndefinedValue
  end.

(** [lastReport.results.reduce((map, user) => { map[user.username] =
    user.totalVideos; return map }, {})] *)
Definition previousResults (lastReport : Report) : gmap string (option Z) :=
  foldl (λ map user, Object_set map (username user) (totalVideos_of user)) ∅
    (report_results lastReport).

Section Validation.

Variable web : string → nat → PageRun.

(** The body of [for (const user of results)]; the value is the object
    [user] after the iteration.  [Object.assign(user, retryResult)]
    overwrites every property of a profile with those of another one.  An
    inherited member passes the test [!== undefined], but it is no number
    and the comparison [user.totalVideos + videoBufferCount <
    previousVideos] with it is false. *)
Definition validate_user (previous : gmap string (option Z))
    (logFilePath : option string) (user : Entry) : M Entry :=
  match user with
  | ErrorEntry _ _ => mret user
  | Profile name d =>
      match Object_get previous name with
      | NumberValue previousVideos =>
          if totalVideos d + videoBufferCount <? previousVideos then
            console_emit (FewerVideos name (totalVideos d) previousVideos);;
            retryResult ← scrapeTikTokProfile web name 1 logFilePath;
            match retryResult with
            | Profile name' d' =>
                if previousVideos <=? totalVideos d' then
                  console_emit (UpdatedCount name' (totalVideos d'));;
                  mret (Profile name' d')
                else
                  console_emit (NotCorrected name);; mret user
            | ErrorEntry _ _ =>
                console_emit (NotCorrected name);; mret user
            end
          else mret user
      | Inherited => mret user
      | UndefinedValue => mret user
      end
  end.

Fixpoint validate_loop (previous : gmap string (option Z))
    (logFilePath : option string) (results : list Entry) : M (list Entry) :=
  match results with
  | [] => mret []
  | user :: rest =>
      user' ← validate_user previous logFilePath user;
      rest' ← validate_loop previous logFilePath rest;
      mret (user' :: rest')
  end.

(** [validateVideoCounts(results, lastReport, logFilePath)]; the array
    returned is [results] itself, with its elements updated in place. *)
Definition validateVideoCounts (results : list Entry) (lastReport : option Report)
    (logFilePath : option string) : M (list Entry) :=
  match lastReport with
  | None => mret results
  | Some report => validate_loop (previousResults report) logFilePath results
  end.

End Validation.

(** ** Totals and differences *)

(** The [totals] object literal of the main function. *)
Definition totals (usernames : list string) (validatedResults : list Entry) : Totals.t :=
  {| Totals.totalUsers := Z.of_nat (length usernames);
     Totals.totalVideos :=
       foldl (λ sum user, sum + or0 (totalVideos_of user)) 0 validatedResults;
     Totals.totalFollowers :=
       foldl (λ sum user, sum + metric_of Followers user) 0 validatedResults;
     Totals.totalLikes :=
       foldl (λ sum user, sum + metric_of Likes user) 0 validatedResults;
     Totals.totalViews :=
       foldl (λ sum user, sum + metric_of TotalViews user) 0 validatedResults |}.

(** [calculateDifferences(current, previous)]; reading a property of
    [null] or [undefined] throws. *)
Definition calculateDifferences (current : Totals.t) (previous : option PreviousTotals.t)
    : settled Totals.t :=
  match previous with
  | None => Rejected "TypeError: Cannot read properties of null"
  | Some previous =>
      Fulfilled
        {| Totals.totalUsers :=
             Totals.totalUsers current - or0 (PreviousTotals.totalUsers previous);
           Totals.totalVideos :=
             Totals.totalVideos current - or0 (PreviousTotals.totalVideos previous);
           Totals.totalFollowers :=
             Totals.totalFollowers current - or0 (PreviousTotals.totalFollowers previous);
           Totals.totalLikes :=
             Totals.totalLikes current - or0 (PreviousTotals.totalLikes previous);
           Totals.totalViews :=
             Totals.totalViews current - or0 (PreviousTotals.totalViews previous) |}
  end.

(** [let differences = null; if (lastReport) differences =
    calculateDifferences(totals, lastReport.totals)] *)
Definition differences (totals : Totals.t) (lastReport : option Report)
    : settled (option Totals.t) :=
  match lastReport with
  | None => Fulfilled None
  | Some report =>
      match calculateDifferences totals (report_totals report) with
      | Fulfilled d => Fulfilled (Some d)
      | Rejected reason => Rejected reason
      end
  end.

(** ** Sorting *)

Section Sorting.

Context {A : Type} (compareFn : A → A → Z).

(** Insertion of [x], which in the source array precedes every element of
    [sorted]: [x] stays in front of the elements it does not have to follow. *)
Fixpoint sort_insert (x : A) (sorted : list A) : list A :=
  match sorted with
  | [] => [x]
  | y :: rest =>
      if compareFn x y <=? 0 then x :: y :: rest
      else y :: sort_insert x rest
  end.

(** [array.sort(compareFn)]: the stable sort of the language. *)
Definition Array_sort (l : list A) : list A := foldr sort_insert [] l.

End Sorting.

(** ** The persisted document *)

#[warnings="-register-all"] Inductive JSON :=
| JNull
| JNumber (n : Z)
| JString (s : string)
| JArray (items : list JSON)
| JObject (fields : list (string * JSON)).

Definition object_keys (doc : JSON) : list string :=
  match doc with JObject fields => fst <$> fields | _ => [] end.

(** [doc[key]] *)
Definition get_field (key : string) (doc : JSON) : option JSON :=
  match doc with
  | JObject fields => snd <$> List.find (λ kv, String.eqb (fst kv) key) fields
  | _ => None
  end.

Definition video_json (v : Video) : JSON :=
  JObject [("views", JNumber (views v)); ("link", JString (link v))].

Definition entry_json (user : Entry) : JSON :=
  match user with
  | Profile name d =>
      JObject [("username", JString name);
               ("followers", JNumber (followers d));
               ("likes", JNumber (likes d));
               ("totalViews", JNumber (totalViews d));
               ("totalVideos", JNumber (totalVideos d));
               ("videos", JArray (video_json <$> videos d))]
  | ErrorEntry name error =>
      JObject [("username", JString name); ("error", JString error)]
  end.

Definition totals_json (t : Totals.t) : JSON :=
  JObject [("totalUsers", JNumber (Totals.totalUsers t));
           ("totalVideos", JNumber (Totals.totalVideos t));
           ("totalFollowers", JNumber (Totals.totalFollowers t));
           ("totalLikes", JNumber (Totals.totalLikes t));
           ("totalViews", JNumber (Totals.totalViews t))].

(** The [outputData] object literal. *)
Definition outputData (now : string) (validatedResults : list Entry) (totals : Totals.t)
    (topUsersByFollowers topUsersByViews topUsersByLikes : string) : JSON :=
  JObject [("timestamp", JString now);
           ("results", JArray (entry_json <$> validatedResults));
           ("totals", totals_json totals);
           ("highest",
            JObject [("topUsersByFollowers", JString topUsersByFollowers);
                     ("topUsersByViews", JString topUsersByViews);
                     ("topUsersByLikes", JString topUsersByLikes)])].

(** ** Rankings and the report *)

Section Report.

(** [(value / divisor).toFixed(1)], a rendering of a floating-point
    quotient that is left uninterpreted. *)
Variable toFixed1 : Z → Z → string.

Definition formatNumber (value : Z) : string :=
  if 1000000 <=? value then toFixed1 value 1000000 +:+ "M"
  else if 1000 <=? value then toFixed1 value 1000 +:+ "K"
  else pretty value.

(** [(a, b) => (b[metric] || 0) - (a[metric] || 0)] *)
Definition by_metric (metric : Metric) (a b : Entry) : Z :=
  metric_of metric b - metric_of metric a.

(** The array of [getTopUsers] before it is rendered:
    [results.filter(..).sort(..).slice(0, count)], with [count = 5] when the
    argument is [undefined]. *)
Definition getTopUsers_entries (results : list Entry) (metric : Metric)
    (count : option nat) : list Entry :=
  take (default 5%nat count)
    (Array_sort (by_metric metric) (List.filter no_error results)).

Definition ranking_line (metric : Metric) (index : nat) (user : Entry) : string :=
  pretty (index + 1)%nat +:+ ". " +:+ username user +:+ " - "
    +:+ formatNumber (metric_of metric user).

(** [lines.join(separator)] *)
Fixpoint join (separator : string) (lines : list string) : string :=
  match lines with
  | [] => ""
  | [line] => line
  | line :: rest => line +:+ separator +:+ join separator rest
  end.

Definition newline : string := String (ascii_of_nat 10) EmptyString.

Definition getTopUsers (results : list Entry) (metric : Metric) (count : option nat)
    : string :=
  join newline (imap (ranking_line metric) (getTopUsers_entries results metric count)).

(** The main function from [const totals] to the [writeFileSync] of the
    document: the value is the document written and the [differences] that
    the summary prints.  [results] and [validatedResults] are one and the
    same array there, so the rankings read the validated entries. *)
Definition main_report (usernames : list string) (validatedResults : list Entry)
    (lastReport : option Report) (rankLimit : option nat) (now : string)
    : settled (JSON * option Totals.t) :=
  let totals := totals usernames validatedResults in
  match differences totals lastReport with
  | Rejected reason => Rejected reason
  | Fulfilled differences =>
      let topUsersByFollowers := getTopUsers validatedResults Followers rankLimit in
      let topUsersByViews := getTopUsers validatedResults TotalViews rankLimit in
      let topUsersByLikes := getTopUsers validatedResults Likes rankLimit in
      Fulfilled
        (outputData now validatedResults totals
           topUsersByFollowers topUsersByViews topUsersByLikes,
         differences)
  end.

End Report.

(** ** Reading the list of usernames *)

(** From here on the characters of a string matter.  A [string] stands for
    a JavaScript string whose code units are all below 256, one [ascii] per
    code unit; text with other characters is outside of what follows. *)

(** What [fs.readFileSync(path, 'utf-8')] gives. *)
Inductive FileRead :=
| Content (data : string)
| ReadError (message : string).

Definition LF : ascii := ascii_of_nat 10.

(** The code units that [trim] strips: tab, line feed, vertical tab, form
    feed, carriage return, space and no-break space. *)
Definition is_space (c : ascii) : bool :=
  let n := N_of_ascii c in
  (n =? 9)%N || (n =? 10)%N || (n =? 11)%N || (n =? 12)%N || (n =? 13)%N
  || (n =? 32)%N || (n =? 160)%N.

Fixpoint trimStart (s : string) : string :=
  match s with
  | EmptyString => EmptyString
  | String c rest => if is_space c then trimStart rest else s
  end.

Fixpoint trimEnd (s : string) : string :=
  match s with
  | EmptyString => EmptyString
  | String c rest =>
      match trimEnd rest with
      | EmptyString => if is_space c then EmptyString else String c EmptyString
      | kept => String c kept
      end
  end.

(** [s.trim()] *)
Definition trim (s : string) : string := trimEnd (trimStart s).

(** [s.split(separator)] for a separator of one character. *)
Fixpoint split_on (separator : ascii) (s : string) : list string :=
  match s with
  | EmptyString => [EmptyString]
  | String c rest =>
      if Ascii.eqb c separator then EmptyString :: split_on separator rest
      else
        match split_on separator rest with
        | piece :: pieces => String c piece :: pieces
        | [] => [String c EmptyString]
        end
  end.

(** [Boolean(s)] *)
Definition truthy_string (s : string) : bool :=
  match s with EmptyString => false | String _ _ => true end.

(** [set.add(x)] on a set kept in the order of insertion. *)
Definition Set_add (set : list string) (x : string) : list string :=
  if decide (x ∈ set) then set else set ++ [x].

(** [Array.from(new Set(items))] *)
Definition Array_from_Set (items : list string) : list string :=
  foldl Set_add [] items.

Inductive ReaderMsg :=
| LoadedUsernames (count : nat)
| ReadingFailed (message : string).

(** [readUsernamesFromFile(filePath)], given what reading the file yields. *)
Definition readUsernamesFromFile (file : FileRead) : list string * ReaderMsg :=
  match file with
  | Content data =>
      let usernames :=
        Array_from_Set (List.filter truthy_string (trim <$> split_on LF data)) in
      (usernames, LoadedUsernames (length usernames))
  | ReadError message => ([], ReadingFailed message)
  end.

(** The start of the main function: [None] is [process.exit(1)]. *)
Definition main_usernames (file : FileRead) : option (list string) :=
  let usernames := (readUsernamesFromFile file).1 in
  if (length usernames =? 0)%nat then None else Some usernames.

(** ** Finding the last report *)

(** What reading and parsing one file of the reports folder gives: an
    exception, or a document of which the script reads [timestamp],
    [results] and [totals]. *)
Inductive ReportFile :=
| Unparsable (message : string)
| ParsedReport (timestamp : option string) (results : list Entry)
    (totals : option PreviousTotals.t).

(** [s.endsWith(suffix)] *)
Fixpoint endsWith (suffix s : string) : bool :=
  String.eqb s suffix ||
  match s with
  | EmptyString => false
  | String _ rest => endsWith suffix rest
  end.

(** [file.startsWith('tiktok_results_') && file.endsWith('.json')] *)
Definition is_report_file (file : string) : bool :=
  String.prefix "tiktok_results_" file && endsWith ".json" file.

(** The comparison of [array.sort()] without a function: by code units. *)
Definition compare_strings (a b : string) : Z :=
  match String.compare a b with Lt => -1 | Eq => 0 | Gt => 1 end.

(** [fs.readFileSync(path.join(reportsFolder, name))] and [JSON.parse] on
    a folder given as the names that [readdirSync] lists, each with its
    file. *)
Definition read_report (folder : list (string * ReportFile)) (name : string) : ReportFile :=
  match List.find (λ entry, String.eqb entry.1 name) folder with
  | Some entry => entry.2
  | None => Unparsable "ENOENT: no such file or directory"
  end.

Section LastReport.

(** [!isNaN(new Date(timestamp))] *)
Variable valid_date : string → bool.

(** The loop [for (let i = reportFiles.length - 1; i >= 0; i--)] over the
    names from last to first.  The value pairs what is returned with
    whether the warning about timestamps was printed. *)
Fixpoint scan_reports (folder : list (string * ReportFile)) (names : list string)
    : settled (option Report * bool) :=
  match names with
  | [] => Fulfilled (None, true)
  | name :: earlier =>
      match read_report folder name with
      | Unparsable message => Rejected message
      | ParsedReport timestamp results totals =>
          match timestamp with
          | Some t =>
              if truthy_string t && valid_date t then
                Fulfilled
                  (Some {| report_timestamp := t;
                           report_results := results;
                           report_totals := totals |}, false)
              else scan_reports folder earlier
          | None => scan_reports folder earlier
          end
      end
  end.

(** [loadLastReport(reportsFolder)] *)
Definition loadLastReport (folder : list (string * ReportFile))
    : settled (option Report * bool) :=
  let reportFiles :=
    Array_sort compare_strings (List.filter is_report_file (fst <$> folder)) in
  if (length reportFiles =? 0)%nat then Fulfilled (None, false)
  else scan_reports folder (reverse reportFiles).

End LastReport.

(** ** The name of the report file *)

(** [iso.replace(/[:.]/g, '-')] *)
Fixpoint replace_colons_periods (iso : string) : string :=
  match iso with
  | EmptyString => EmptyString
  | String c rest =>
      String (if Ascii.eqb c ":" || Ascii.eqb c "." then "-"%char else c)
        (replace_colons_periods rest)
  end.

(** The last component of [outputFilePath]. *)
Definition outputFileName (now : string) : string :=
  "tiktok_results_" +:+ replace_colons_periods now +:+ ".json".

(** ** The configuration *)

(** What [JSON.parse] makes of [config.json], as far as the main function
    reads it: each of the three keys is missing or holds a natural number.
    Files with other values under these keys are outside of what follows. *)
Record Config := {
  cfg_retries : option nat;
  cfg_rankLimit : option nat;
  cfg_batchSize : option nat
}.

(** What reading and parsing the file gives. *)
Inductive ConfigFile :=
| ConfigObject (config : Config)
| ConfigError (message : string).

(** What the main function takes from [loadConfig]: [retries] and
    [rankLimit] may be [undefined], [batchSize] is always set. *)
Record Settings := {
  retries : option nat;
  rankLimit : option nat;
  batchSize : nat
}.

(** [config.batchSize || 5]: a missing key and [0] are falsy. *)
Definition batchSize_or_5 (value : option nat) : nat :=
  match value with
  | Some (S n) => S n
  | Some O | None => 5%nat
  end.

(** [loadConfig(configPath)], with the message of [console.error] if one
    is printed. *)
Definition loadConfig (file : ConfigFile) : Settings * option string :=
  match file with
  | ConfigObject config =>
      ({| retries := cfg_retries config;
          rankLimit := cfg_rankLimit config;
          batchSize := batchSize_or_5 (cfg_batchSize config) |}, None)
  | ConfigError message =>
      ({| retries := Some 3%nat; rankLimit := Some 5%nat; batchSize := 5%nat |},
       Some message)
  end.

(** The bound of [while (attempts < retries)]: with [retries] undefined the
    comparison is false from the start, as it is for [0]. *)
Definition attempts_allowed (retries : option nat) : nat := default 0%nat retries.

(** * Vocabulary of the statements *)

(** ** The retry loop *)

(** The message the [catch] block receives in an attempt, if any. *)
Definition caught_message (username : string) (run : PageRun) : option string :=
  match run with
  | Throws message => Some message
  | ErrorPage => Some (not_exist_message username)
  | Rendered _ => None
  end.

(** [data] holds no extraction with videos. *)
Definition unusable (data : option Data) : Prop :=
  match data with None => True | Some d => videos d = [] end.

(** The character [c] occurs in [s]. *)
Fixpoint occurs (c : ascii) (s : string) : bool :=
  match s with
  | EmptyString => false
  | String a rest => Ascii.eqb a c || occurs c rest
  end.

(** ** Batches *)

(** [values] holds, at the positions already filled, what the promises of
    [batch] at those positions were fulfilled with. *)
Definition stored_from {R} (batch : list (string * settled R))
    (values : list (option R)) : Prop :=
  length values = length batch ∧
  ∀ i r, values !! i = Some (Some r) → ∃ name, batch !! i = Some (name, Fulfilled r).

(** The number of positions of [values] that wait for their promise. *)
Definition pending {R} (values : list (option R)) : nat :=
  length (List.filter (λ v, from_option (λ _, false) true v) values).

(** Every promise that is still pending settles at some point of
    [completion]. *)
Definition all_settle {R} (values : list (option R)) (completion : list nat) : Prop :=
  ∀ i, values !! i = Some None → i ∈ completion.

(** The number of batches that [n] usernames fill. *)
Definition rounds (n batchSize : nat) : nat := ((n + batchSize - 1) / batchSize)%nat.

(** ** Validation *)

(** The entry is a profile whose video count lies more than
    [videoBufferCount] below the count recorded for the same username. *)
Definition suspicious (previous : gmap string (option Z)) (user : Entry) : bool :=
  match user with
  | Profile name d =>
      match Object_get previous name with
      | NumberValue previousVideos => totalVideos d + videoBufferCount <? previousVideos
      | _ => false
      end
  | ErrorEntry _ _ => false
  end.

(** The corrective result is a profile with at least the recorded number of
    videos. *)
Definition corrects (previousVideos : Z) (retryResult : Entry) : bool :=
  match retryResult with
  | Profile _ d' => previousVideos <=? totalVideos d'
  | ErrorEntry _ _ => false
  end.

(** What the console shows once the corrective result is in. *)
Definition verdict (previousVideos : Z) (name : string) (retryResult : Entry) : ConsoleMsg :=
  match retryResult with
  | Profile name' d' =>
      if previousVideos <=? totalVideos d' then UpdatedCount name' (totalVideos d')
      else NotCorrected name
  | ErrorEntry _ _ => NotCorrected name
  end.

(** The number of corrective fetches that [results] call for. *)
Definition refetches (lastReport : option Report) (results : list Entry) : nat :=
  match lastReport with
  | None => 0
  | Some report => length (List.filter (suspicious (previousResults report)) results)
  end.

(** ** Totals and rankings *)

(** The counters are typed as integers.  The script holds them in doubles,
    which store every whole number up to [2 ^ 53] and add and subtract such
    numbers without rounding as long as the result stays in that range.
    [exact n] says that [n] is in the range. *)
Definition exact (n : Z) : Prop := 0 ≤ n ≤ 2 ^ 53.

(** No counter of the entry is negative. *)
Definition counted (user : Entry) : Prop :=
  0 ≤ or0 (totalVideos_of user) ∧ 0 ≤ metric_of Followers user ∧
  0 ≤ metric_of Likes user ∧ 0 ≤ metric_of TotalViews user.

(** Every total is in the range in which doubles do not round. *)
Definition exact_totals (t : Totals.t) : Prop :=
  exact (Totals.totalUsers t) ∧ exact (Totals.totalVideos t) ∧
  exact (Totals.totalFollowers t) ∧ exact (Totals.totalLikes t) ∧
  exact (Totals.totalViews t).

(** The data of a profile entry. *)
Definition profile_data (user : Entry) : option Data :=
  match user with Profile _ d => Some d | ErrorEntry _ _ => None end.

Definition sum_Z (l : list Z) : Z := foldr Z.add 0 l.

(** The sum of [field] over the profile entries of [l]. *)
Definition sum_over_profiles (field : Data → Z) (l : list Entry) : Z :=
  sum_Z (field <$> omap profile_data l).

(** [a] may stand before [b] in a ranking by [metric]. *)
Definition outranks (metric : Metric) (a b : Entry) : Prop :=
  metric_of metric b ≤ metric_of metric a.

(** The entries of [l] whose value of [metric] is [v], in the order of [l]. *)
Definition tied (metric : Metric) (v : Z) (l : list Entry) : list Entry :=
  filter (λ user, metric_of metric user = v) l.

(** The totals of a run as the next run reads them back from the report:
    the document carries all five. *)
Definition persisted (t : Totals.t) : PreviousTotals.t :=
  {| PreviousTotals.totalUsers := Some (Totals.totalUsers t);
     PreviousTotals.totalVideos := Some (Totals.totalVideos t);
     PreviousTotals.totalFollowers := Some (Totals.totalFollowers t);
     PreviousTotals.totalLikes := Some (Totals.totalLikes t);
     PreviousTotals.totalViews := Some (Totals.totalViews t) |}.

(** Deltas of a run in which nothing changed. *)
Definition no_change : Totals.t :=
  {| Totals.totalUsers := 0;
     Totals.totalVideos := 0;
     Totals.totalFollowers := 0;
     Totals.totalLikes := 0;
     Totals.totalViews := 0 |}.

(** ** Files *)

(** Every character of [s] is one that [trim] strips. *)
Fixpoint blank (s : string) : bool :=
  match s with
  | EmptyString => true
  | String c rest => is_space c && blank rest
  end.

(** A username as the reader delivers it: not empty, nothing to trim, all
    on one line. *)
Definition clean_username (u : string) : Prop :=
  u ≠ "" ∧ trim u = u ∧ occurs LF u = false.

(** A document that [loadLastReport] passes over: parsed, but without a
    timestamp that is a date. *)
Definition undated (valid_date : string → bool) (file : ReportFile) : bool :=
  match file with
  | Unparsable _ => false
  | ParsedReport None _ _ => true
  | ParsedReport (Some t) _ _ => negb (truthy_string t && valid_date t)
  end.

(** What [loadLastReport] ends with once it reads a file that it does not
    pass over. *)
Definition settles_with (file : ReportFile) : settled (option Report * bool) :=
  match file with
  | Unparsable message => Rejected message
  | ParsedReport timestamp results totals =>
      Fulfilled
        (Some {| report_timestamp := default "" timestamp;
                 report_results := results;
                 report_totals := totals |}, false)
  end.

(** [a] and [b] are as long as each other and differ only where neither has
    a colon or a period, as two timestamps of [toISOString] do. *)
Fixpoint aligned (a b : string) : Prop :=
  match a, b with
  | EmptyString, EmptyString => True
  | String c a', String d b' =>
      (c = d ∨ ((Ascii.eqb c ":" || Ascii.eqb c ".") = false ∧
                (Ascii.eqb d ":" || Ascii.eqb d ".") = false)) ∧
      aligned a' b'
  | _, _ => False
  end.

(** * Sample runs *)

Definition env0 : Env := {| navigations := 0; appended := []; console := [] |}.

Definition sample_log : string := "reports/retry_log.txt".

Definition sample_video (n : Z) : Video := {| views := n; link := "N/A" |}.

(** A rendered profile page with [count] videos. *)
Definition sample_page (count : nat) : PageContent :=
  {| pc_followers := 1200; pc_likes := 340; pc_items := replicate count (sample_video 7) |}.

(** ** Pages *)

(** A profile that shows the error page at every visit. *)
Definition web_missing : string → nat → PageRun := λ _ _, ErrorPage.

(** Every visit renders a page with [count] videos. *)
Definition web_renders (count : nat) : string → nat → PageRun :=
  λ _ _, Rendered (sample_page count).

(** The first navigation times out; from then on the page renders two
    videos. *)
Definition web_timeout_first : string → nat → PageRun := λ _ n,
  match n with
  | O => Throws "Navigation Timeout Exceeded: 90000ms exceeded"
  | _ => Rendered (sample_page 2)
  end.

(** A connection reset, then a page without videos, then the full page. *)
Definition web_flaky : string → nat → PageRun := λ _ n,
  match n with
  | 0%nat => Throws "net::ERR_CONNECTION_RESET"
  | 1%nat => Rendered (sample_page 0)
  | _ => Rendered (sample_page 2)
  end.

(** Two pages without videos, then the full page. *)
Definition web_slow_render : string → nat → PageRun := λ _ n,
  match n with
  | 0%nat | 1%nat => Rendered (sample_page 0)
  | _ => Rendered (sample_page 2)
  end.

(** ** Tasks and settling orders *)

Definition sample_usernames : list string :=
  ["ana"; "ben"; "cleo"; "dmitri"; "eve"; "farid"; "gus"].

Definition sample_task : string → option string → settled Entry := λ name _,
  Fulfilled (Profile name (extract (sample_page (String.length name)))).

Definition sample_outcomes : list Entry :=
  (λ name, Profile name (extract (sample_page (String.length name)))) <$> sample_usernames.

(** A task that is rejected for [eve]. *)
Definition sample_failing_task : string → option string → settled Entry := λ name _,
  if String.eqb name "eve" then Rejected "Error: Failed to launch the browser process"
  else sample_task name None.

(** A scheduler that settles the promises of every batch last to first. *)
Definition completion_reversed (batchSize : nat) : nat → list nat :=
  λ _, reverse (seq 0 batchSize).

(** ** Results and reports *)

Definition sample_profile (name : string) (count : Z) : Entry :=
  Profile name
    {| followers := 500; likes := 200; totalViews := 9000; totalVideos := count;
       videos := [sample_video 9000] |}.

Definition sample_results : list Entry :=
  [sample_profile "ana" 12; ErrorEntry "ben" failed_message; sample_profile "cleo" 3].

(** A task under which [ben] ends as an error entry. *)
Definition sample_mixed_task : string → option string → settled Entry := λ name _,
  Fulfilled
    (if String.eqb name "ben" then ErrorEntry name failed_message
     else if String.eqb name "cleo" then sample_profile name 3
     else sample_profile name 12).

Definition sample_previous_totals : PreviousTotals.t :=
  {| PreviousTotals.totalUsers := Some 2;
     PreviousTotals.totalVideos := Some 20;
     PreviousTotals.totalFollowers := Some 420;
     PreviousTotals.totalLikes := Some 200;
     PreviousTotals.totalViews := Some 9000 |}.

(** The last report knows [alice] with twenty videos. *)
Definition sample_report : Report :=
  {| report_timestamp := "2024-06-09T15:45:30.000Z";
     report_results := [sample_profile "alice" 20; ErrorEntry "bob" failed_message];
     report_totals := Some sample_previous_totals |}.

(** The last report knows [__proto__] with twenty videos. *)
Definition sample_proto_report : Report :=
  {| report_timestamp := "2024-06-09T15:45:30.000Z";
     report_results := [sample_profile "__proto__" 20];
     report_totals := Some sample_previous_totals |}.

(** The results of a later run: [bob] failed and [alice] shows ten videos. *)
Definition sample_rerun : list Entry :=
  [ErrorEntry "bob" failed_message; sample_profile "alice" 10].

(** The totals of the specification's own example. *)
Definition sample_totals : Totals.t :=
  {| Totals.totalUsers := 3;
     Totals.totalVideos := 10;
     Totals.totalFollowers := 500;
     Totals.totalLikes := 200;
     Totals.totalViews := 9000 |}.

(** A rendering of quotients for the sample runs; no property depends on
    it. *)
Definition sample_toFixed1 : Z → Z → string := λ value divisor,
  pretty (value / divisor) +:+ "." +:+ pretty (value `mod` divisor * 10 / divisor).

(** A page without videos, then a connection reset. *)
Definition web_empty_then_reset : string → nat → PageRun := λ _ n,
  match n with
  | 0%nat => Rendered (sample_page 0)
  | _ => Throws "net::ERR_CONNECTION_RESET"
  end.

(** ** Files *)

Definition sample_names : list string := ["ana"; "ben"; "cleo"].

(** A stand-in for the test [!isNaN(new Date(t))]. *)
Definition sample_valid_date : string → bool := String.prefix "20".

Definition sample_now : string := "2024-06-09T15:45:30.000Z".

(** The document of [sample_report] as [JSON.parse] returns it. *)
Definition sample_report_file : ReportFile :=
  ParsedReport (Some sample_now) (report_results sample_report) (report_totals sample_report).

(** The reports folder after the run of [sample_now]: the retry log, the
    report of the run, and a truncated report of the week before. *)
Definition sample_folder : list (string * ReportFile) :=
  [("retry_log.txt", Unparsable "Unexpected token R in JSON at position 0");
   (outputFileName sample_now, sample_report_file);
   ("tiktok_results_2024-06-02T09-00-00-000Z.json", Unparsable "Unexpected end of JSON input")].

(** The same folder with a later document that has no timestamp. *)
Definition sample_folder_undated : list (string * ReportFile) :=
  ("tiktok_results_2024-06-10T08-00-00-000Z.json", ParsedReport None [] None)
  :: sample_folder.

(** A configuration without [retries] and with a batch size of zero. *)
Definition sample_config : Config :=
  {| cfg_retries := None; cfg_rankLimit := Some 3%nat; cfg_batchSize := Some 0%nat |}.

(** * Properties of the retry loop *)

Section ScraperFacts.

Context (web : string → nat → PageRun).

Lemma attempt_loop_rendered username logFilePath remaining attempts data st content :
  web (profile_url username) (navigations st) = Rendered content →
  attempt_loop web username logFilePath (S remaining) attempts data st =
  if (0 <? length (pc_items content))%nat
  then (Fulfilled (Some (extract content)), navigated st)
  else attempt_loop web username logFilePath remaining (S attempts)
         (Some (extract content)) (navigated st).
Proof.
  intros Hrun. cbn [attempt_loop]. unfold mbind, M_bind, page_goto.
  rewrite Hrun. cbn [extract videos]. destruct (0 <? _)%nat; reflexivity.
Qed.

Lemma attempt_loop_caught username logFilePath remaining attempts data st message :
  caught_message username (web (profile_url username) (navigations st)) = Some message →
  attempt_loop web username logFilePath (S remaining) attempts data st =
  if includes "Timeout" message
  then (Fulfilled data, printed (TimeoutExceeded username) (navigated st))
  else match logFilePath with
       | Some path =>
           attempt_loop web username logFilePath remaining (S attempts) data
             (logged path (retry_line username (S attempts) message) (navigated st))
       | None =>
           (Rejected "TypeError [ERR_INVALID_ARG_TYPE]: The path argument must be of type string",
            navigated st)
       end.
Proof.
  intros Hrun. cbn [attempt_loop]. unfold mbind, M_bind, page_goto.
  destruct (web (profile_url username) (navigations st)) as [m| |c];
    cbn [caught_message] in Hrun; inversion Hrun; subst message;
    (destruct (includes "Timeout" _); [reflexivity|]);
    destruct logFilePath; reflexivity.
Qed.

Lemma run_cases username (run : PageRun) :
  (∃ message, caught_message username run = Some message) ∨
  (∃ content, run = Rendered content).
Proof. destruct run; eauto. Qed.

(** With a log file to write to, the loop always comes to an end, after at
    least one navigation when an attempt is allowed and after at most one
    per attempt; and when no navigation in that range renders videos, it
    ends with nothing usable. *)
Lemma attempt_loop_ends username path remaining :
  ∀ attempts data st, ∃ data' st',
    attempt_loop web username (Some path) remaining attempts data st
      = (Fulfilled data', st') ∧
    (navigations st + Nat.min 1 remaining ≤ navigations st'
       ≤ navigations st + remaining)%nat ∧
    (unusable data →
     (∀ n content, (navigations st ≤ n < navigations st + remaining)%nat →
        web (profile_url username) n = Rendered content → pc_items content = []) →
     unusable data').
Proof.
  induction remaining as [|remaining IH]; intros attempts data st.
  { exists data, st. split; [done|]. split; [cbn; lia|done]. }
  destruct (run_cases username (web (profile_url username) (navigations st)))
    as [[message Hcaught]|[content Hrun]].
  - rewrite (attempt_loop_caught _ _ _ _ _ _ message Hcaught).
    destruct (includes "Timeout" message).
    + eexists _, _. split; [reflexivity|]. split; [cbn; lia|done].
    + destruct (IH (S attempts) data
        (logged path (retry_line username (S attempts) message) (navigated st)))
        as (data' & st' & -> & Hnav & Hun).
      exists data', st'. split; [done|]. cbn in Hnav. split; [lia|].
      intros Hdata Hweb. apply Hun; [done|].
      intros n c Hn. apply Hweb. cbn in Hn. lia.
  - rewrite (attempt_loop_rendered _ _ _ _ _ _ content Hrun).
    destruct (0 <? length (pc_items content))%nat eqn:Hvideos.
    + eexists _, _. split; [reflexivity|]. split; [cbn; lia|].
      intros _ Hweb. rewrite (Hweb (navigations st) content) in Hvideos by (lia || done).
      done.
    + destruct (IH (S attempts) (Some (extract content)) (navigated st))
        as (data' & st' & -> & Hnav & Hun).
      exists data', st'. split; [done|]. cbn in Hnav. split; [lia|].
      intros _ Hweb. apply Hun.
      * cbn. apply (Hweb (navigations st) content); [lia|done].
      * intros n c Hn. apply Hweb. cbn in Hn. lia.
Qed.

Lemma scrape_of_loop username retries logFilePath st data st' :
  attempt_loop web username logFilePath retries 0 None st = (Fulfilled data, st') →
  scrapeTikTokProfile web username retries logFilePath st =
  (Fulfilled
     match data with
     | Some d => if (length (videos d) =? 0)%nat
                 then ErrorEntry username failed_message
                 else Profile username d
     | None => ErrorEntry username failed_message
     end, st').
Proof.
  intros Hloop. unfold scrapeTikTokProfile, mbind, M_bind. rewrite Hloop.
  destruct data as [d|]; [|reflexivity]. destruct (length (videos d) =? 0)%nat; reflexivity.
Qed.

(** The executor answers for the username it was asked about. *)
Lemma scrape_fulfils name retries path st :
  ∃ user st',
    scrapeTikTokProfile web name retries (Some path) st = (Fulfilled user, st') ∧
    username user = name ∧
    (navigations st + Nat.min 1 retries ≤ navigations st'
       ≤ navigations st + retries)%nat.
Proof.
  destruct (attempt_loop_ends name path retries 0 None st)
    as (data & st' & Hloop & Hnav & _).
  rewrite (scrape_of_loop _ _ _ _ _ _ Hloop).
  eexists _, st'. split; [reflexivity|]. split; [|done].
  destruct data as [d|]; [|done]. by destruct (length (videos d) =? 0)%nat.
Qed.

End ScraperFacts.

Section RetryPolicy.

Context (web : string → nat → PageRun).

Lemma navigations_iter k st :
  navigations (Nat.iter k navigated st) = (navigations st + k)%nat.
Proof.
  induction k as [|k IH]; [cbn; lia|].
  rewrite Nat.iter_succ. unfold navigated at 1. cbn [navigations]. lia.
Qed.

Lemma iter_navigated_shift k st :
  Nat.iter k navigated (navigated st) = Nat.iter (S k) navigated st.
Proof.
  induction k as [|k IH]; [done|].
  rewrite Nat.iter_succ, IH. by rewrite <- Nat.iter_succ.
Qed.

(** [k] renderings without videos are each followed by a further attempt;
    the rendering with videos that comes next ends the loop. *)
Lemma attempt_loop_empty_prefix username logFilePath content k :
  ∀ remaining attempts data st,
    (∀ j, (j < k)%nat → ∃ c,
       web (profile_url username) (navigations st + j) = Rendered c ∧ pc_items c = []) →
    web (profile_url username) (navigations st + k) = Rendered content →
    pc_items content ≠ [] →
    attempt_loop web username logFilePath (k + S remaining) attempts data st =
    (Fulfilled (Some (extract content)), Nat.iter (S k) navigated st).
Proof.
  induction k as [|k IH]; intros remaining attempts data st Hempty Hfull Hne.
  - rewrite Nat.add_0_r in Hfull. cbn [Nat.add].
    rewrite (attempt_loop_rendered _ _ _ _ _ _ _ _ Hfull).
    destruct (pc_items content); [done|reflexivity].
  - destruct (Hempty 0%nat) as (c & Hc & Hnil); [lia|].
    rewrite Nat.add_0_r in Hc. cbn [Nat.add].
    rewrite (attempt_loop_rendered _ _ _ _ _ _ _ _ Hc), Hnil. cbn [length Nat.ltb Nat.leb].
    rewrite IH; [by rewrite iter_navigated_shift| |by rewrite <- Hfull; f_equal; cbn; lia|done].
    intros j Hj. destruct (Hempty (S j)) as (c' & Hc' & Hnil'); [lia|].
    exists c'. split; [|done]. rewrite <- Hc'. f_equal. cbn. lia.
Qed.

(** A profile whose page is the error page at every visit, and whose name
    does not make the message look like a timeout, costs every attempt. *)
Lemma missing_profile_costs_every_attempt username path retries :
  includes "Timeout" (not_exist_message username) = false →
  (∀ n, web (profile_url username) n = ErrorPage) →
  ∀ attempts data st, ∃ st',
    attempt_loop web username (Some path) retries attempts data st = (Fulfilled data, st') ∧
    navigations st' = (navigations st + retries)%nat ∧
    length (appended st') = (length (appended st) + retries)%nat.
Proof.
  intros Hmsg Hweb. induction retries as [|retries IH]; intros attempts data st.
  - exists st. repeat split; lia.
  - rewrite (attempt_loop_caught _ _ _ _ _ _ _ (not_exist_message username))
      by (by rewrite Hweb).
    rewrite Hmsg.
    destruct (IH (S attempts) data
      (logged path (retry_line username (S attempts) (not_exist_message username))
         (navigated st))) as (st' & Heq & Hnav & Hlog).
    exists st'. split; [exact Heq|]. cbn in Hnav, Hlog.
    rewrite length_app in Hlog. cbn in Hlog. lia.
Qed.

(** ** C3 *)

(** C3, evaluated on the code.  The profile [ghost] shows the error page at
    every visit and three attempts are allowed.  The negative existence
    check is thrown into the same [catch] as every other error: the executor
    logs it, navigates again, and after three navigations reports the
    generic failure entry; no separate not-found outcome exists. *)
Theorem missing_profile_is_retried :
  scrapeTikTokProfile web_missing "ghost" 3 (Some sample_log) env0 =
  (Fulfilled (ErrorEntry "ghost" failed_message),
   {| navigations := 3;
      appended :=
        [(sample_log, retry_line "ghost" 1 "User @ghost does not exist or is unavailable.");
         (sample_log, retry_line "ghost" 2 "User @ghost does not exist or is unavailable.");
         (sample_log, retry_line "ghost" 3 "User @ghost does not exist or is unavailable.")];
      console := [] |}).
Proof. reflexivity. Qed.

(** ** C4 *)

(** C4 fails as stated: three attempts are allowed and the first navigation
    times out; the loop is left at once, after one navigation, nothing is
    written to the retry log, and the page that would have rendered at the
    second navigation is never asked for. *)
Lemma timeout_ends_retry_loop :
  web_timeout_first (profile_url "alice") 0 =
    Throws "Navigation Timeout Exceeded: 90000ms exceeded" ∧
  web_timeout_first (profile_url "alice") 1 = Rendered (sample_page 2) ∧
  scrapeTikTokProfile web_timeout_first "alice" 3 (Some sample_log) env0 =
  (Fulfilled (ErrorEntry "alice" failed_message),
   {| navigations := 1; appended := []; console := [TimeoutExceeded "alice"] |}).
Proof. repeat split. Qed.

(** C4, amended.  A thrown error whose message does not contain [Timeout]
    is written to the retry log and the loop goes on with the next attempt;
    a thrown error whose message contains [Timeout] ends the loop at once;
    and whenever no navigation of the run renders a page with videos, the
    executor returns the failure entry, after at most [retries]
    navigations. *)
Theorem thrown_error_policy username path :
  (∀ remaining attempts data st message,
     web (profile_url username) (navigations st) = Throws message →
     includes "Timeout" message = false →
     attempt_loop web username (Some path) (S remaining) attempts data st =
     attempt_loop web username (Some path) remaining (S attempts) data
       (logged path (retry_line username (S attempts) message) (navigated st))) ∧
  (∀ logFilePath remaining attempts data st message,
     web (profile_url username) (navigations st) = Throws message →
     includes "Timeout" message = true →
     attempt_loop web username logFilePath (S remaining) attempts data st =
     (Fulfilled data, printed (TimeoutExceeded username) (navigated st))) ∧
  (∀ retries st,
     (∀ n content, (navigations st ≤ n < navigations st + retries)%nat →
        web (profile_url username) n = Rendered content → pc_items content = []) →
     ∃ st',
       scrapeTikTokProfile web username retries (Some path) st =
         (Fulfilled (ErrorEntry username failed_message), st') ∧
       (navigations st' ≤ navigations st + retries)%nat).
Proof.
  split; [|split].
  - intros remaining attempts data st message Hrun Hmsg.
    rewrite (attempt_loop_caught _ _ _ _ _ _ _ message) by (by rewrite Hrun).
    by rewrite Hmsg.
  - intros logFilePath remaining attempts data st message Hrun Hmsg.
    rewrite (attempt_loop_caught _ _ _ _ _ _ _ message) by (by rewrite Hrun).
    by rewrite Hmsg.
  - intros retries st Hweb.
    destruct (attempt_loop_ends web username path retries 0 None st)
      as (data & st' & Hloop & Hnav & Hun).
    exists st'. split; [|lia].
    rewrite (scrape_of_loop _ _ _ _ _ _ _ Hloop).
    specialize (Hun I Hweb).
    destruct data as [d|]; [|done]. cbn in Hun. by rewrite Hun.
Qed.

(** ** C5 *)

(** C5.  When the first [k] attempts render a page without videos and the
    next one, still within [retries], renders videos, the executor makes
    exactly [k + 1] navigations and returns the profile read at the last of
    them; and a profile without videos is never what the executor
    returns. *)
Theorem rendered_page_policy username logFilePath retries st k content :
  (k < retries)%nat →
  (∀ j, (j < k)%nat → ∃ c,
     web (profile_url username) (navigations st + j) = Rendered c ∧ pc_items c = []) →
  web (profile_url username) (navigations st + k) = Rendered content →
  pc_items content ≠ [] →
  scrapeTikTokProfile web username retries logFilePath st =
    (Fulfilled (Profile username (extract content)), Nat.iter (S k) navigated st) ∧
  navigations (Nat.iter (S k) navigated st) = (navigations st + k + 1)%nat ∧
  (∀ name retries' path st0 user d st1,
     scrapeTikTokProfile web name retries' path st0 = (Fulfilled user, st1) →
     user = Profile name d → videos d ≠ []).
Proof.
  intros Hk Hempty Hfull Hne. split; [|split].
  - replace retries with (k + S (retries - k - 1))%nat by lia.
    unfold scrapeTikTokProfile, mbind, M_bind.
    rewrite (attempt_loop_empty_prefix username logFilePath content k) by done.
    cbn [extract videos]. destruct (pc_items content); [done|reflexivity].
  - rewrite navigations_iter. lia.
  - intros name retries' path st0 user d st1 Hrun ->.
    unfold scrapeTikTokProfile, mbind, M_bind in Hrun.
    destruct (attempt_loop web name path retries' 0 None st0) as [[[d'|]|reason] st2];
      [|done..].
    destruct (length (videos d') =? 0)%nat eqn:Hlen; [done|].
    inversion Hrun; subst. intros Hnil. by rewrite Hnil in Hlen.
Qed.

End RetryPolicy.

(** * Properties of the batch scheduler *)

Section PromiseAll.

Context {R : Type}.
Implicit Types (batch : list (string * settled R)) (values : list (option R)).

Lemma Promise_all_nil batch values bar :
  Promise_all batch values [] bar =
  match mapM id values with Some vs => Some (Fulfilled vs, bar) | None => None end.
Proof. reflexivity. Qed.

Lemma Promise_all_cons batch values idx rest bar :
  Promise_all batch values (idx :: rest) bar =
  match mapM id values with
  | Some vs => Some (Fulfilled vs, bar)
  | None =>
      match values !! idx, batch !! idx with
      | Some None, Some (name, Fulfilled result) =>
          Promise_all batch (<[idx := Some result]> values) rest (bar_increment bar name)
      | Some None, Some (_, Rejected reason) => Some (Rejected reason, bar)
      | _, _ => Promise_all batch values rest bar
      end
  end.
Proof. reflexivity. Qed.

Lemma stored_from_replicate batch :
  stored_from batch (replicate (length batch) None).
Proof.
  split; [apply length_replicate|].
  intros i r Hi. apply lookup_replicate_1 in Hi as [? _]. done.
Qed.

Lemma stored_from_insert batch values idx name result :
  stored_from batch values →
  batch !! idx = Some (name, Fulfilled result) →
  stored_from batch (<[idx := Some result]> values).
Proof.
  intros [Hlen Hval] Hidx. split; [by rewrite length_insert|].
  intros i r. destruct (decide (idx = i)) as [->|Hne].
  - rewrite list_lookup_insert_eq.
    + intros [= ->]. by exists name.
    + rewrite Hlen. by eapply lookup_lt_Some.
  - rewrite list_lookup_insert_ne by done. apply Hval.
Qed.

Lemma pending_replicate n : pending (replicate n (@None R)) = n.
Proof. unfold pending. induction n as [|n IH]; [done|]. cbn. by rewrite IH. Qed.

Lemma pending_delivered values vs : mapM id values = Some vs → pending values = 0%nat.
Proof.
  intros HmapM. apply mapM_Some in HmapM. unfold pending.
  induction HmapM as [|v r values vs Hv _ IH]; [done|].
  cbn in Hv. subst v. exact IH.
Qed.

Lemma pending_insert values : ∀ idx result,
  values !! idx = Some None →
  S (pending (<[idx := Some result]> values)) = pending values.
Proof.
  unfold pending. induction values as [|v values IH]; intros [|idx] result Hidx; try done.
  - cbn in Hidx. by inversion Hidx.
  - cbn in Hidx. specialize (IH idx result Hidx). simpl.
    destruct v; simpl; [exact IH|]. by rewrite IH.
Qed.

(** What [Promise.all] delivers is, position by position, what the promises
    of the batch were fulfilled with. *)
Lemma Promise_all_sound batch completion :
  ∀ values bar vs bar',
    stored_from batch values →
    Promise_all batch values completion bar = Some (Fulfilled vs, bar') →
    Forall2 (λ promise v, promise.2 = Fulfilled v) batch vs.
Proof.
  assert (Hdone : ∀ values vs, stored_from batch values → mapM id values = Some vs →
            Forall2 (λ promise v, promise.2 = Fulfilled v) batch vs).
  { intros values vs [Hlen Hval] HmapM. apply mapM_Some in HmapM.
    apply Forall2_same_length_lookup. split.
    - rewrite <- Hlen. by eapply Forall2_length.
    - intros i [name s] v Hb Hv.
      destruct (Forall2_lookup_r _ _ _ _ _ HmapM Hv) as (x & Hx & Hxv).
      cbn in Hxv. subst x. destruct (Hval _ _ Hx) as (name' & Hb').
      rewrite Hb in Hb'. by inversion Hb'. }
  induction completion as [|idx rest IH]; intros values bar vs bar' Hst.
  - rewrite Promise_all_nil. destruct (mapM id values) eqn:HmapM; [|done].
    intros [= -> ->]. eauto.
  - rewrite Promise_all_cons. destruct (mapM id values) eqn:HmapM.
    { intros [= -> ->]. eauto. }
    destruct (values !! idx) as [[r|]|] eqn:Hv; [by apply IH| |by apply IH].
    destruct (batch !! idx) as [[name [result|reason]]|] eqn:Hb; [|done|by apply IH].
    apply IH. by eapply stored_from_insert.
Qed.

(** When every promise of the batch is fulfilled and every pending one
    settles, [Promise.all] delivers. *)
Lemma Promise_all_delivers batch completion :
  Forall (λ promise, ∃ v, promise.2 = Fulfilled v) batch →
  ∀ values bar,
    length values = length batch →
    all_settle values completion →
    ∃ vs bar',
      Promise_all batch values completion bar = Some (Fulfilled vs, bar') ∧
      bar_value bar' = (bar_value bar + pending values)%nat ∧
      bar_total bar' = bar_total bar ∧ bar_active bar' = bar_active bar.
Proof.
  intros Hful. induction completion as [|idx rest IH]; intros values bar Hlen Hall.
  - rewrite Promise_all_nil. destruct (mapM id values) as [vs|] eqn:HmapM.
    { exists vs, bar. rewrite (pending_delivered _ _ HmapM). by rewrite Nat.add_0_r. }
    apply mapM_None, Exists_exists in HmapM as (x & Hx & Hnone).
    cbn in Hnone. subst x. apply list_elem_of_lookup in Hx as [i Hi].
    by apply Hall, elem_of_nil in Hi.
  - rewrite Promise_all_cons. destruct (mapM id values) as [vs|] eqn:HmapM.
    { exists vs, bar. rewrite (pending_delivered _ _ HmapM). by rewrite Nat.add_0_r. }
    assert (Hskip : values !! idx ≠ Some None → all_settle values rest).
    { intros Hidx i Hi. specialize (Hall i Hi).
      apply elem_of_cons in Hall as [->|?]; done. }
    destruct (values !! idx) as [[r|]|] eqn:Hv; [by apply IH, Hskip| |by apply IH, Hskip].
    destruct (batch !! idx) as [[name [result|reason]]|] eqn:Hb.
    + destruct (IH (<[idx := Some result]> values) (bar_increment bar name))
        as (vs & bar' & Hrun & Hvalue & Htotal & Hactive).
      * by rewrite length_insert.
      * intros i Hi. destruct (decide (idx = i)) as [->|Hne].
        -- rewrite list_lookup_insert_eq in Hi by (by eapply lookup_lt_Some). done.
        -- rewrite list_lookup_insert_ne in Hi by done. specialize (Hall i Hi).
           apply elem_of_cons in Hall as [->|?]; done.
      * exists vs, bar'. split; [done|]. split; [|done].
        rewrite Hvalue. cbn [bar_increment bar_value].
        rewrite <- (pending_insert values idx result Hv). lia.
    + apply list_elem_of_lookup_2 in Hb.
      rewrite Forall_forall in Hful. destruct (Hful _ Hb) as [v Hv']. done.
    + apply lookup_lt_Some in Hv. apply lookup_ge_None in Hb. lia.
Qed.

End PromiseAll.

Section BatchScheduler.

Context {R : Type}.
Context (usernames : list string) (batchSize : nat).
Context (task : string → option string → settled R) (logFilePath : option string).
Context (completion : nat → list nat).
Context (outcomes : list R).

Hypothesis batchSize_positive : (1 ≤ batchSize)%nat.
Hypothesis tasks_fulfil :
  Forall2 (λ name outcome, task name logFilePath = Fulfilled outcome) usernames outcomes.
Hypothesis promises_settle :
  ∀ i j, (j < length (slice i (i + batchSize) usernames))%nat → j ∈ completion i.

Lemma batch_delivers i bar :
  ∃ bar',
    Promise_all ((λ name, (name, task name logFilePath)) <$> slice i (i + batchSize) usernames)
      (replicate (length ((λ name, (name, task name logFilePath))
                            <$> slice i (i + batchSize) usernames)) None)
      (completion i) bar
    = Some (Fulfilled (slice i (i + batchSize) outcomes), bar') ∧
    bar_value bar' = (bar_value bar + length (slice i (i + batchSize) usernames))%nat ∧
    bar_total bar' = bar_total bar ∧ bar_active bar' = bar_active bar.
Proof.
  set (names := slice i (i + batchSize) usernames).
  set (batch := (λ name, (name, task name logFilePath)) <$> names).
  assert (Hnames : Forall2 (λ name outcome, task name logFilePath = Fulfilled outcome)
                     names (slice i (i + batchSize) outcomes)).
  { unfold names, slice. by apply Forall2_take, Forall2_drop. }
  destruct (Promise_all_delivers batch (completion i)) with
    (values := replicate (length batch) (@None R)) (bar := bar)
    as (vs & bar' & Hrun & Hvalue & Htotal & Hactive).
  - unfold batch. apply Forall_fmap, Forall_forall. intros name Hname. cbn.
    apply list_elem_of_lookup in Hname as [j Hj].
    destruct (Forall2_lookup_l _ _ _ _ _ Hnames Hj) as (outcome & _ & Hout). eauto.
  - apply length_replicate.
  - intros j Hj. apply lookup_replicate_1 in Hj as [_ Hj].
    apply promises_settle. unfold batch in Hj. by rewrite length_fmap in Hj.
  - exists bar'. rewrite pending_replicate in Hvalue.
    assert (Hbatch : length batch = length names) by apply length_fmap.
    rewrite Hbatch in Hvalue. split; [|done].
    rewrite Hrun. do 3 f_equal.
    apply Promise_all_sound in Hrun; [|apply stored_from_replicate].
    unfold batch in Hrun. apply Forall2_fmap_l in Hrun.
    clear -Hrun Hnames. revert Hrun Hnames.
    generalize (slice i (i + batchSize) outcomes). generalize names.
    intros l k H1. revert k. induction H1 as [|x y l vs Hxy _ IH]; intros k Hk.
    + by inversion Hk.
    + inversion Hk as [|? z ? k' Hxz Hk']; subst. cbn in Hxy.
      f_equal; [congruence|by apply IH].
Qed.

Lemma batches_loop_delivers fuel :
  ∀ i results bar,
    (length usernames - i ≤ fuel)%nat →
    ∃ bar',
      batches_loop usernames batchSize task logFilePath completion fuel i results bar
      = Some (Fulfilled (results ++ drop i outcomes), bar') ∧
      bar_value bar' = (bar_value bar + (length usernames - i))%nat ∧
      bar_total bar' = bar_total bar ∧ bar_active bar' = false.
Proof.
  pose proof (Forall2_length _ _ _ tasks_fulfil) as Hlen.
  assert (Hend : ∀ i results bar, (length usernames ≤ i)%nat →
            ∃ bar', Some (Fulfilled results, bar_stop bar)
                      = Some (Fulfilled (results ++ drop i outcomes), bar') ∧
                    bar_value bar' = (bar_value bar + (length usernames - i))%nat ∧
                    bar_total bar' = bar_total bar ∧ bar_active bar' = false).
  { intros i results bar Hi. exists (bar_stop bar).
    rewrite drop_ge by lia. rewrite app_nil_r. cbn. repeat split; lia. }
  induction fuel as [|fuel IH]; intros i results bar Hfuel; cbn [batches_loop];
    destruct (i <? length usernames)%nat eqn:Hi;
    try (apply Nat.ltb_ge in Hi; by apply Hend).
  { apply Nat.ltb_lt in Hi. lia. }
  apply Nat.ltb_lt in Hi.
  destruct (batch_delivers i bar) as (bar1 & -> & Hvalue1 & Htotal1 & Hactive1).
  destruct (IH (i + batchSize)%nat (results ++ slice i (i + batchSize) outcomes) bar1)
    as (bar' & -> & Hvalue & Htotal & Hactive); [lia|].
  exists bar'. split; [|split; [|split]].
  - do 3 f_equal. rewrite <- app_assoc. f_equal.
    unfold slice. replace (i + batchSize - i)%nat with batchSize by lia.
    rewrite <- drop_drop. apply take_drop.
  - rewrite Hvalue, Hvalue1. unfold slice. rewrite length_take, length_drop. lia.
  - congruence.
  - done.
Qed.

End BatchScheduler.

(** ** C1 *)

(** C1.  With a batch size of at least one, tasks that are fulfilled with
    an outcome each, and whatever the order in which the promises of a batch
    settle, [processInBatches] returns, given the loop iterations it needs,
    exactly the outcomes of the usernames, as many as there are usernames
    and in their order; by then the progress bar has been moved once per
    username and is stopped. *)
Theorem processInBatches_keeps_input_order {R} (usernames : list string)
    (batchSize : nat) (task : string → option string → settled R)
    (logFilePath : option string) (completion : nat → list nat)
    (outcomes : list R) (fuel : nat) :
  (1 ≤ batchSize)%nat →
  Forall2 (λ name outcome, task name logFilePath = Fulfilled outcome) usernames outcomes →
  (∀ i j, (j < length (slice i (i + batchSize) usernames))%nat → j ∈ completion i) →
  (length usernames ≤ fuel)%nat →
  (∃ bar, processInBatches usernames batchSize task logFilePath completion fuel
          = Some (Fulfilled outcomes, bar) ∧
          bar_value bar = length usernames ∧ bar_active bar = false) ∧
  length outcomes = length usernames ∧
  (∀ i name, usernames !! i = Some name →
     ∃ outcome, outcomes !! i = Some outcome ∧ task name logFilePath = Fulfilled outcome).
Proof.
  intros Hsize Htasks Hsettle Hfuel. split; [|split].
  - unfold processInBatches.
    destruct (batches_loop_delivers usernames batchSize task logFilePath completion
                outcomes Hsize Htasks Hsettle fuel 0 [] (bar_start (length usernames)))
      as (bar & Hrun & Hvalue & _ & Hactive); [lia|].
    exists bar. rewrite Hrun. cbn in Hvalue. repeat split; [lia|done].
  - symmetry. by eapply Forall2_length.
  - intros i name Hi.
    destruct (Forall2_lookup_l _ _ _ _ _ Htasks Hi) as (outcome & Hout & Htask). eauto.
Qed.

(** ** Rejected tasks *)

(** The main function calls [processInBatches] with three arguments, so the
    tasks receive [undefined] as log file path; an executor that has to log
    a retry is then rejected by [appendFileSync]. *)
Lemma undefined_log_path_rejects :
  scrapeTikTokProfile web_missing "ghost" 3 None env0 =
  (Rejected "TypeError [ERR_INVALID_ARG_TYPE]: The path argument must be of type string",
   navigated env0).
Proof. reflexivity. Qed.

(** A rejected task rejects the whole call: the batches up to it are lost
    and the bar is left running. *)
Lemma rejected_task_rejects_batches :
  processInBatches sample_usernames 3 sample_failing_task None (completion_reversed 3) 7 =
  Some (Rejected "Error: Failed to launch the browser process",
        {| bar_total := 7; bar_value := 4; bar_username := "@farid"; bar_active := true |}).
Proof. reflexivity. Qed.

(** * Properties of the validation against the last report *)

Section PreviousResults.

Implicit Types (l : list Entry) (m : gmap string (option Z)).

Lemma Object_set_other m key value name :
  name ≠ key → Object_set m key value !! name = m !! name.
Proof.
  intros Hne. unfold Object_set. destruct (String.eqb key "__proto__"); [done|].
  by rewrite lookup_insert_ne.
Qed.

Lemma Object_set_same m key value :
  key ≠ "__proto__" → Object_set m key value !! key = Some value.
Proof.
  intros Hkey. unfold Object_set. destruct (String.eqb_spec key "__proto__"); [done|].
  apply lookup_insert_eq.
Qed.

Lemma Object_set_proto m key value :
  Object_set m key value !! "__proto__" = m !! "__proto__".
Proof.
  unfold Object_set. destruct (String.eqb_spec key "__proto__") as [->|Hne]; [done|].
  by rewrite lookup_insert_ne.
Qed.

Lemma previous_fold_other l : ∀ m name,
  name ∉ username <$> l →
  foldl (λ map user, Object_set map (username user) (totalVideos_of user)) m l !! name
  = m !! name.
Proof.
  induction l as [|x l IH]; intros m name Hname; [done|].
  cbn [foldl]. rewrite fmap_cons, not_elem_of_cons in Hname. destruct Hname as [Hx Hl].
  rewrite IH by done. by rewrite Object_set_other.
Qed.

Lemma previous_fold_proto l : ∀ m,
  foldl (λ map user, Object_set map (username user) (totalVideos_of user)) m l !! "__proto__"
  = m !! "__proto__".
Proof.
  induction l as [|x l IH]; intros m; [done|].
  cbn [foldl]. by rewrite IH, Object_set_proto.
Qed.

Lemma previous_fold_member l : ∀ m user,
  NoDup (username <$> l) →
  user ∈ l →
  username user ≠ "__proto__" →
  foldl (λ map user, Object_set map (username user) (totalVideos_of user)) m l
    !! username user
  = Some (totalVideos_of user).
Proof.
  induction l as [|x l IH]; intros m user Hnodup Hin Hname; [by apply elem_of_nil in Hin|].
  rewrite fmap_cons in Hnodup. apply NoDup_cons in Hnodup as [Hx Hnodup].
  cbn [foldl]. apply elem_of_cons in Hin as [->|Hin].
  - rewrite previous_fold_other by done. by apply Object_set_same.
  - by apply IH.
Qed.

Lemma previousResults_profile lastReport name dp :
  NoDup (username <$> report_results lastReport) →
  Profile name dp ∈ report_results lastReport →
  name ≠ "__proto__" →
  Object_get (previousResults lastReport) name = NumberValue (totalVideos dp).
Proof.
  intros Hnodup Hin Hname. unfold Object_get, previousResults.
  by rewrite (previous_fold_member _ _ (Profile name dp) Hnodup Hin Hname).
Qed.

(** Whatever the last report lists, [__proto__] reads as the prototype. *)
Lemma previousResults_proto lastReport :
  Object_get (previousResults lastReport) "__proto__" = Inherited.
Proof.
  unfold Object_get, previousResults. by rewrite previous_fold_proto, lookup_empty.
Qed.

Lemma suspicious_number previous name d :
  suspicious previous (Profile name d) = true →
  ∃ previousVideos, Object_get previous name = NumberValue previousVideos.
Proof.
  cbn [suspicious]. destruct (Object_get previous name) as [pv| |]; [eauto|done..].
Qed.

End PreviousResults.

Section ValidationFacts.

Context (web : string → nat → PageRun).

Lemma validate_user_calm previous logFilePath user st :
  suspicious previous user = false →
  validate_user web previous logFilePath user st = (Fulfilled user, st).
Proof.
  destruct user as [name d|name e]; [|done]. cbn [suspicious validate_user].
  destruct (Object_get previous name) as [pv| |]; [|done..].
  by intros ->.
Qed.

Lemma validate_user_refetch previous path name d previousVideos st :
  Object_get previous name = NumberValue previousVideos →
  suspicious previous (Profile name d) = true →
  ∃ retryResult st1,
    scrapeTikTokProfile web name 1 (Some path)
      (printed (FewerVideos name (totalVideos d) previousVideos) st)
      = (Fulfilled retryResult, st1) ∧
    username retryResult = name ∧
    navigations st1 = S (navigations st) ∧
    validate_user web previous (Some path) (Profile name d) st =
      (Fulfilled (if corrects previousVideos retryResult then retryResult
                  else Profile name d),
       printed (verdict previousVideos name retryResult) st1).
Proof.
  intros Hprev Hsus. cbn [suspicious] in Hsus. rewrite Hprev in Hsus.
  destruct (scrape_fulfils web name 1 path
              (printed (FewerVideos name (totalVideos d) previousVideos) st))
    as (retryResult & st1 & Hscrape & Hname & Hnav).
  exists retryResult, st1. repeat split; [done|done|cbn in Hnav; lia|].
  cbn [validate_user]. rewrite Hprev, Hsus.
  unfold mbind, M_bind at 1. cbn [console_emit].
  unfold mbind, M_bind at 1. rewrite Hscrape.
  destruct retryResult as [name' d'|name' e']; cbn [corrects verdict]; [|reflexivity].
  destruct (previousVideos <=? totalVideos d'); reflexivity.
Qed.

End ValidationFacts.

Section Reconciliation.

Context (web : string → nat → PageRun).

Lemma validateVideoCounts_step user rest report logFilePath st :
  validateVideoCounts web (user :: rest) (Some report) logFilePath st =
  match validate_user web (previousResults report) logFilePath user st with
  | (Fulfilled user', st1) =>
      match validateVideoCounts web rest (Some report) logFilePath st1 with
      | (Fulfilled rest', st2) => (Fulfilled (user' :: rest'), st2)
      | (Rejected reason, st2) => (Rejected reason, st2)
      end
  | (Rejected reason, st1) => (Rejected reason, st1)
  end.
Proof.
  cbn [validateVideoCounts validate_loop]. unfold mbind, M_bind.
  destruct (validate_user _ _ _ _ _) as [[user'|reason] st1]; [|done].
  by destruct (validate_loop _ _ _ _ _) as [[rest'|reason] st2].
Qed.

Lemma validate_user_keeps previous path user st :
  ∃ user' st',
    validate_user web previous (Some path) user st = (Fulfilled user', st') ∧
    username user' = username user ∧
    (user' = user ∨ (suspicious previous user = true ∧ no_error user' = true)).
Proof.
  destruct (suspicious previous user) eqn:Hsus.
  - destruct user as [name d|name e]; [|done].
    destruct (suspicious_number _ _ _ Hsus) as [pv Hprev].
    destruct (validate_user_refetch web previous path name d pv st Hprev Hsus)
      as (retryResult & st1 & _ & Hname & _ & ->).
    eexists _, _. split; [reflexivity|].
    destruct retryResult as [name' d'|name' e']; cbn [corrects]; [|by auto].
    destruct (pv <=? totalVideos d'); auto.
  - exists user, st. rewrite validate_user_calm by done. auto.
Qed.

(** The body of the loop on a profile that the last report, which lists
    every username once, holds as a profile under a name that the
    dictionary can store. *)
Lemma validate_user_reconciles (lastReport : Report) (path name : string)
    (d dp : Data) (st : Env) :
  NoDup (username <$> report_results lastReport) →
  Profile name dp ∈ report_results lastReport →
  name ≠ "__proto__" →
  (suspicious (previousResults lastReport) (Profile name d) = true
     ↔ totalVideos d + 5 < totalVideos dp) ∧
  (suspicious (previousResults lastReport) (Profile name d) = false →
     validate_user web (previousResults lastReport) (Some path) (Profile name d) st
       = (Fulfilled (Profile name d), st)) ∧
  (suspicious (previousResults lastReport) (Profile name d) = true →
     ∃ retryResult st1,
       scrapeTikTokProfile web name 1 (Some path)
         (printed (FewerVideos name (totalVideos d) (totalVideos dp)) st)
         = (Fulfilled retryResult, st1) ∧
       navigations st1 = S (navigations st) ∧
       validate_user web (previousResults lastReport) (Some path) (Profile name d) st =
         (Fulfilled (if corrects (totalVideos dp) retryResult then retryResult
                     else Profile name d),
          printed (if corrects (totalVideos dp) retryResult
                   then UpdatedCount name (or0 (totalVideos_of retryResult))
                   else NotCorrected name) st1)).
Proof.
  intros Hnodup Hin Hname.
  pose proof (previousResults_profile _ _ _ Hnodup Hin Hname) as Hprev.
  split; [|split].
  - cbn [suspicious]. rewrite Hprev. unfold videoBufferCount. apply Z.ltb_lt.
  - apply validate_user_calm.
  - intros Hsus.
    destruct (validate_user_refetch web _ path name d _ st Hprev Hsus)
      as (retryResult & st1 & Hscrape & Hname' & Hnav & Hrun).
    exists retryResult, st1. repeat split; [done..|].
    rewrite Hrun. do 2 f_equal.
    destruct retryResult as [name' d'|name' e']; cbn [corrects verdict]; [|done].
    cbn in Hname'. subst name'. by destruct (totalVideos dp <=? totalVideos d').
Qed.

(** ** C10 *)

(** C10.  Given a log file, [validateVideoCounts] returns, for every list of
    results and with or without a last report, a list of the same length
    that carries the same usernames at the same positions; an entry that
    differs from the one it replaces was suspicious against the last report
    and is a profile again. *)
Theorem validateVideoCounts_keeps_entries (results : list Entry)
    (lastReport : option Report) (path : string) (st : Env) :
  ∃ validated st',
    validateVideoCounts web results lastReport (Some path) st = (Fulfilled validated, st') ∧
    length validated = length results ∧
    username <$> validated = username <$> results ∧
    Forall2
      (λ user user',
         user' = user ∨
         ∃ report, lastReport = Some report ∧
                   suspicious (previousResults report) user = true ∧
                   no_error user = true ∧ no_error user' = true)
      results validated.
Proof.
  destruct lastReport as [report|].
  2:{ exists results, st. split; [done|]. split; [done|]. split; [done|].
      apply Forall_Forall2_diag, Forall_forall. auto. }
  revert st. induction results as [|user rest IH]; intros st.
  - exists [], st. repeat split. constructor.
  - rewrite validateVideoCounts_step.
    destruct (validate_user_keeps (previousResults report) path user st)
      as (user' & st1 & -> & Hname & Hsame).
    destruct (IH st1) as (rest' & st2 & -> & Hlen & Hnames & Hall).
    exists (user' :: rest'), st2. repeat split.
    + cbn. by rewrite Hlen.
    + rewrite !fmap_cons. by rewrite Hname, Hnames.
    + constructor; [|done]. destruct Hsame as [->|[Hsus Hok]]; [by left|].
      right. exists report. repeat split; [done| |done].
      by destruct user.
Qed.

End Reconciliation.

(** ** C2 *)

(** C2, evaluated on the code.  The last report holds the profile
    [__proto__] with twenty videos and the run finds it with ten, which is
    more than five below.  The dictionary of previous counts is an object
    literal: the assignment of a number to its key [__proto__] stores
    nothing, and reading the key gives the prototype, which is no number.
    So the entry is not flagged: nothing is printed, nothing is fetched and
    the ten videos stand, although the page would show twenty-one.  The
    same counts under the username [alice] are flagged, fetched once and
    corrected. *)
Theorem proto_profile_is_not_flagged :
  validateVideoCounts (web_renders 21) [sample_profile "__proto__" 10]
    (Some sample_proto_report) (Some sample_log) env0
  = (Fulfilled [sample_profile "__proto__" 10], env0) ∧
  validateVideoCounts (web_renders 21) [sample_profile "alice" 10]
    (Some sample_report) (Some sample_log) env0
  = (Fulfilled [Profile "alice" (extract (sample_page 21))],
     {| navigations := 1; appended := [];
        console := [FewerVideos "alice" 10 20; UpdatedCount "alice" 21] |}).
Proof. split; vm_compute; reflexivity. Qed.

(** * Properties of the rankings *)

Section Ranking.

Context (metric : Metric).
Implicit Types (l : list Entry) (x y : Entry).

Lemma sort_insert_perm x l : sort_insert (by_metric metric) x l ≡ₚ x :: l.
Proof.
  induction l as [|y l IH]; [done|]. cbn [sort_insert].
  destruct (by_metric metric x y <=? 0); [done|].
  rewrite IH. apply Permutation_swap.
Qed.

Lemma Array_sort_perm l : Array_sort (by_metric metric) l ≡ₚ l.
Proof.
  induction l as [|x l IH]; [done|]. cbn [Array_sort foldr].
  rewrite sort_insert_perm. by f_equiv.
Qed.

Lemma sort_insert_sorted x l :
  StronglySorted (outranks metric) l →
  StronglySorted (outranks metric) (sort_insert (by_metric metric) x l).
Proof.
  induction 1 as [|y l Hl IH Hy]; cbn [sort_insert].
  - repeat constructor.
  - destruct (by_metric metric x y <=? 0) eqn:Hcmp.
    + apply Z.leb_le in Hcmp. unfold by_metric in Hcmp.
      constructor; [by constructor|]. constructor; [unfold outranks; lia|].
      eapply Forall_impl; [exact Hy|]. unfold outranks. intros z Hz. lia.
    + apply Z.leb_gt in Hcmp. unfold by_metric in Hcmp.
      constructor; [done|]. rewrite sort_insert_perm.
      constructor; [unfold outranks; lia|done].
Qed.

Lemma Array_sort_sorted l :
  StronglySorted (outranks metric) (Array_sort (by_metric metric) l).
Proof.
  induction l as [|x l IH]; [constructor|]. by apply sort_insert_sorted.
Qed.

(** Entries with the same value keep the order they had. *)
Lemma sort_insert_tied v x l :
  tied metric v (sort_insert (by_metric metric) x l) = tied metric v (x :: l).
Proof.
  unfold tied. induction l as [|y l IH]; [done|]. cbn [sort_insert].
  destruct (by_metric metric x y <=? 0) eqn:Hcmp; [done|].
  apply Z.leb_gt in Hcmp. unfold by_metric in Hcmp.
  rewrite (filter_cons _ y), IH, !(filter_cons _ x), (filter_cons _ y).
  repeat case_decide; try done. lia.
Qed.

Lemma Array_sort_tied v l :
  tied metric v (Array_sort (by_metric metric) l) = tied metric v l.
Proof.
  induction l as [|x l IH]; [done|]. cbn [Array_sort foldr].
  rewrite sort_insert_tied. unfold tied in *. rewrite !(filter_cons _ x).
  fold (Array_sort (by_metric metric) l). by rewrite IH.
Qed.

End Ranking.

Section TopUsers.

Context (toFixed1 : Z → Z → string).

(** ** C7 *)

(** C7.  The array that [getTopUsers] renders holds profile entries of
    [results] only, stands in descending order of the metric, has at most
    [count] entries (five when no count is given), lists entries of equal
    value in the order of [results], and every profile entry of [results]
    that is left out has a value no greater than any value listed.  The
    string returned has one line per entry of that array, in its order. *)
Theorem getTopUsers_ranks (results : list Entry) (metric : Metric) (count : option nat) :
  Forall (λ user, no_error user = true ∧ user ∈ results)
    (getTopUsers_entries results metric count) ∧
  StronglySorted (outranks metric) (getTopUsers_entries results metric count) ∧
  (length (getTopUsers_entries results metric count) ≤ default 5 count)%nat ∧
  (∀ v, tied metric v (getTopUsers_entries results metric count)
          `prefix_of` tied metric v (List.filter no_error results)) ∧
  (∃ others,
     List.filter no_error results ≡ₚ getTopUsers_entries results metric count ++ others ∧
     ∀ listed other, listed ∈ getTopUsers_entries results metric count →
       other ∈ others → metric_of metric other ≤ metric_of metric listed) ∧
  getTopUsers toFixed1 results metric count =
    join newline
      (imap (ranking_line toFixed1 metric) (getTopUsers_entries results metric count)).
Proof.
  unfold getTopUsers_entries.
  set (k := default 5%nat count).
  set (sorted := Array_sort (by_metric metric) (List.filter no_error results)).
  assert (Hsplit : take k sorted ++ drop k sorted = sorted) by apply take_drop.
  pose proof (Array_sort_sorted metric (List.filter no_error results)) as Hsorted.
  fold sorted in Hsorted. rewrite <- Hsplit in Hsorted.
  repeat split.
  - apply Forall_forall. intros user Huser.
    apply subseteq_take in Huser. unfold sorted in Huser.
    rewrite Array_sort_perm in Huser.
    apply list_elem_of_In, filter_In in Huser as [Hin Hok].
    split; [done|by apply list_elem_of_In].
  - by apply StronglySorted_app_1_l in Hsorted.
  - rewrite length_take. lia.
  - intros v. rewrite <- (Array_sort_tied metric v (List.filter no_error results)).
    fold sorted. rewrite <- Hsplit at 2. unfold tied. rewrite filter_app.
    by apply prefix_app_r.
  - exists (drop k sorted). split.
    + rewrite Hsplit. unfold sorted. by rewrite Array_sort_perm.
    + intros listed other Hlisted Hother.
      apply (StronglySorted_app_1_elem_of _ _ _ _ _ Hsorted Hlisted Hother).
Qed.

End TopUsers.

(** * Properties of the totals, the differences and the document *)

Section Lengths.

Lemma batches_loop_length {R} (usernames : list string) (batchSize : nat)
    (task : string → option string → settled R) (logFilePath : option string)
    (completion : nat → list nat) (fuel : nat) :
  ∀ i results bar out bar',
    batches_loop usernames batchSize task logFilePath completion fuel i results bar
      = Some (Fulfilled out, bar') →
    length out = (length results + (length usernames - i))%nat.
Proof.
  induction fuel as [|fuel IH]; intros i results bar out bar'; cbn [batches_loop];
    destruct (i <? length usernames)%nat eqn:Hi; try done;
    try (apply Nat.ltb_ge in Hi; intros [= <- _]; lia).
  apply Nat.ltb_lt in Hi.
  destruct (Promise_all _ _ _ _) as [[[rs|reason] bar1]|] eqn:Hall; [|done..].
  intros Hrun. apply IH in Hrun. rewrite length_app in Hrun.
  apply Promise_all_sound in Hall; [|apply stored_from_replicate].
  apply Forall2_length in Hall. rewrite length_fmap in Hall.
  unfold slice in Hall. rewrite length_take, length_drop in Hall. lia.
Qed.

Lemma processInBatches_length {R} (usernames : list string) (batchSize : nat)
    (task : string → option string → settled R) (logFilePath : option string)
    (completion : nat → list nat) (fuel : nat) results bar :
  processInBatches usernames batchSize task logFilePath completion fuel
    = Some (Fulfilled results, bar) →
  length results = length usernames.
Proof.
  unfold processInBatches. intros Hrun. apply batches_loop_length in Hrun.
  cbn in Hrun. lia.
Qed.

Lemma validateVideoCounts_length web results lastReport logFilePath :
  ∀ st validated st',
    validateVideoCounts web results lastReport logFilePath st = (Fulfilled validated, st') →
    length validated = length results.
Proof.
  destruct lastReport as [report|]; [|by intros st validated st' [= <- _]].
  induction results as [|user rest IH]; intros st validated st'.
  - by intros [= <- _].
  - rewrite validateVideoCounts_step.
    destruct (validate_user _ _ _ _ _) as [[user'|reason] st1]; [|done].
    destruct (validateVideoCounts _ rest _ _ _) as [[rest'|reason] st2] eqn:Hrest; [|done].
    intros [= <- _]. cbn. f_equal. by eapply IH.
Qed.

End Lengths.

Section Sums.

Lemma foldl_sum (f : Entry → Z) (l : list Entry) : ∀ acc,
  foldl (λ sum user, sum + f user) acc l = acc + sum_Z (f <$> l).
Proof.
  induction l as [|x l IH]; intros acc; cbn; [lia|]. rewrite IH. unfold sum_Z. lia.
Qed.

Lemma sum_profiles_only (f : Entry → Z) (field : Data → Z) (l : list Entry) :
  (∀ user, f user = from_option field 0 (profile_data user)) →
  foldl (λ sum user, sum + f user) 0 l = sum_over_profiles field l.
Proof.
  intros Hf. rewrite foldl_sum, Z.add_0_l. unfold sum_over_profiles.
  induction l as [|x l IH]; [done|].
  rewrite fmap_cons. cbn [sum_Z foldr]. fold (sum_Z (f <$> l)).
  rewrite IH, Hf. by destruct x as [name d|name e].
Qed.

Lemma sum_over_errors (field : Data → Z) (l : list Entry) :
  Forall (λ user, no_error user = false) l → sum_over_profiles field l = 0.
Proof.
  unfold sum_over_profiles. induction 1 as [|x l Hx _ IH]; [done|].
  destruct x; [done|]. exact IH.
Qed.

End Sums.

(** ** C6 *)

(** C6.  For the results that the batches and the validation of a run
    deliver, the totals count as many users as there are results; every
    other total is the sum of its field over the profile entries alone; and
    when every result is an error entry those four totals are zero. *)
Theorem totals_of_run (web : string → nat → PageRun) (usernames : list string)
    (batchSize : nat) (task : string → option string → settled Entry)
    (completion : nat → list nat) (fuel : nat) (lastReport : option Report)
    (logFilePath : option string) (results validatedResults : list Entry)
    (bar : ProgressBar) (st st' : Env) :
  processInBatches usernames batchSize task None completion fuel
    = Some (Fulfilled results, bar) →
  validateVideoCounts web results lastReport logFilePath st
    = (Fulfilled validatedResults, st') →
  totals usernames validatedResults =
    {| Totals.totalUsers := Z.of_nat (length validatedResults);
       Totals.totalVideos := sum_over_profiles totalVideos validatedResults;
       Totals.totalFollowers := sum_over_profiles followers validatedResults;
       Totals.totalLikes := sum_over_profiles likes validatedResults;
       Totals.totalViews := sum_over_profiles totalViews validatedResults |} ∧
  (Forall (λ user, no_error user = false) validatedResults →
   totals usernames validatedResults =
     {| Totals.totalUsers := Z.of_nat (length validatedResults);
        Totals.totalVideos := 0;
        Totals.totalFollowers := 0;
        Totals.totalLikes := 0;
        Totals.totalViews := 0 |}).
Proof.
  intros Hbatches Hvalidated.
  apply processInBatches_length in Hbatches.
  apply validateVideoCounts_length in Hvalidated.
  assert (Htotals : totals usernames validatedResults =
    {| Totals.totalUsers := Z.of_nat (length validatedResults);
       Totals.totalVideos := sum_over_profiles totalVideos validatedResults;
       Totals.totalFollowers := sum_over_profiles followers validatedResults;
       Totals.totalLikes := sum_over_profiles likes validatedResults;
       Totals.totalViews := sum_over_profiles totalViews validatedResults |}).
  { unfold totals. rewrite <- Hbatches, <- Hvalidated.
    f_equal; apply sum_profiles_only; by intros [name d|name e]. }
  split; [exact Htotals|].
  intros Herrors. rewrite Htotals. by rewrite !sum_over_errors.
Qed.

(** ** C8 *)

(** C8 fails as stated: on a first run, with the totals of the
    specification's example and no last report, the script computes no
    deltas at all; [differences] stays [null], and [calculateDifferences]
    itself, handed [null], throws. *)
Lemma first_run_computes_no_deltas :
  differences sample_totals None = Fulfilled None ∧
  differences sample_totals None ≠ Fulfilled (Some sample_totals) ∧
  calculateDifferences sample_totals None
    = Rejected "TypeError: Cannot read properties of null".
Proof. repeat split. discriminate. Qed.

(** C8, amended.  Against a last report that carries totals, every delta is
    the current value minus the previous one, or minus zero where the
    previous totals lack the field.  Without a last report no deltas are
    computed, and that outcome differs from every outcome computed against a
    last report, one without any change included. *)
Theorem differences_per_field (current : Totals.t) :
  differences current None = Fulfilled None ∧
  (∀ report previous,
     report_totals report = Some previous →
     differences current (Some report) =
       Fulfilled (Some
         {| Totals.totalUsers :=
              Totals.totalUsers current - default 0 (PreviousTotals.totalUsers previous);
            Totals.totalVideos :=
              Totals.totalVideos current - default 0 (PreviousTotals.totalVideos previous);
            Totals.totalFollowers :=
              Totals.totalFollowers current
                - default 0 (PreviousTotals.totalFollowers previous);
            Totals.totalLikes :=
              Totals.totalLikes current - default 0 (PreviousTotals.totalLikes previous);
            Totals.totalViews :=
              Totals.totalViews current - default 0 (PreviousTotals.totalViews previous) |})) ∧
  (∀ report, differences current (Some report) ≠ differences current None) ∧
  differences current None ≠ Fulfilled (Some no_change).
Proof.
  repeat split.
  - intros report previous Hprev. unfold differences. by rewrite Hprev.
  - intros report. unfold differences.
    by destruct (calculateDifferences current (report_totals report)).
  - discriminate.
Qed.

(** ** C9 *)

(** C9 fails as stated: a last report exists and the differences are
    computed, yet the document that is written has neither a [deltas] nor a
    [differences] field. *)
Lemma document_without_deltas :
  ∃ doc deltas,
    main_report sample_toFixed1 ["ana"; "ben"; "cleo"] sample_results (Some sample_report)
      (Some 5%nat) "2024-06-10T09:00:00.000Z" = Fulfilled (doc, Some deltas) ∧
    get_field "deltas" doc = None ∧
    get_field "differences" doc = None.
Proof. eexists _, _. repeat split. Qed.

Section Document.

Context (toFixed1 : Z → Z → string).

(** C9, amended.  Whenever the last report, if there is one, carries
    totals, the document is written, and it consists of exactly four fields:
    the timestamp, the validated results in full and in order with error
    entries included, the totals, and the three rankings.  It has no deltas
    field, with or without a last report; the differences, present exactly
    when a last report exists, only reach the printed summary. *)
Theorem document_fields (usernames : list string) (validatedResults : list Entry)
    (lastReport : option Report) (rankLimit : option nat) (now : string) :
  (∀ report, lastReport = Some report → is_Some (report_totals report)) →
  ∃ doc deltas,
    main_report toFixed1 usernames validatedResults lastReport rankLimit now
      = Fulfilled (doc, deltas) ∧
    object_keys doc = ["timestamp"; "results"; "totals"; "highest"] ∧
    get_field "timestamp" doc = Some (JString now) ∧
    get_field "results" doc = Some (JArray (entry_json <$> validatedResults)) ∧
    get_field "totals" doc = Some (totals_json (totals usernames validatedResults)) ∧
    get_field "highest" doc =
      Some (JObject
        [("topUsersByFollowers",
          JString (getTopUsers toFixed1 validatedResults Followers rankLimit));
         ("topUsersByViews",
          JString (getTopUsers toFixed1 validatedResults TotalViews rankLimit));
         ("topUsersByLikes",
          JString (getTopUsers toFixed1 validatedResults Likes rankLimit))]) ∧
    get_field "deltas" doc = None ∧
    (is_Some deltas ↔ is_Some lastReport).
Proof.
  intros Htotals. unfold main_report.
  destruct lastReport as [report|].
  - destruct (Htotals report eq_refl) as [previous Hprev].
    cbn [differences]. rewrite Hprev. cbn [calculateDifferences].
    eexists _, _. split; [reflexivity|]. repeat split; eauto.
  - cbn [differences]. eexists _, _. split; [reflexivity|].
    repeat split; intros [? [=]].
Qed.

End Document.

(** * The statements at work on sample runs *)

Lemma processInBatches_keeps_input_order_witness :
  (1 ≤ 3)%nat ∧
  Forall2 (λ name outcome, sample_task name None = Fulfilled outcome)
    sample_usernames sample_outcomes ∧
  (∀ i j, (j < length (slice i (i + 3) sample_usernames))%nat →
          j ∈ completion_reversed 3 i) ∧
  (length sample_usernames ≤ 7)%nat ∧
  (∃ bar, processInBatches sample_usernames 3 sample_task None (completion_reversed 3) 7
          = Some (Fulfilled sample_outcomes, bar) ∧
          bar_value bar = length sample_usernames ∧ bar_active bar = false) ∧
  length sample_outcomes = length sample_usernames ∧
  (∀ i name, sample_usernames !! i = Some name →
     ∃ outcome, sample_outcomes !! i = Some outcome ∧
                sample_task name None = Fulfilled outcome).
Proof.
  assert (H1 : (1 ≤ 3)%nat) by lia.
  assert (H2 : Forall2 (λ name outcome, sample_task name None = Fulfilled outcome)
                 sample_usernames sample_outcomes) by (repeat constructor).
  assert (H3 : ∀ i j, (j < length (slice i (i + 3) sample_usernames))%nat →
                      j ∈ completion_reversed 3 i).
  { intros i j Hj. unfold slice in Hj. rewrite length_take in Hj.
    assert (Hj' : (j < 3)%nat) by lia.
    destruct j as [|[|[|j]]]; [unfold completion_reversed; cbn; repeat constructor..|lia]. }
  assert (H4 : (length sample_usernames ≤ 7)%nat) by (cbn; lia).
  split; [exact H1|]. split; [exact H2|]. split; [exact H3|]. split; [exact H4|].
  exact (processInBatches_keeps_input_order sample_usernames 3 sample_task None
           (completion_reversed 3) sample_outcomes 7 H1 H2 H3 H4).
Defined.

Lemma thrown_error_policy_witness :
  attempt_loop web_flaky "alice" (Some sample_log) 3 0 None env0 =
    attempt_loop web_flaky "alice" (Some sample_log) 2 1 None
      (logged sample_log (retry_line "alice" 1 "net::ERR_CONNECTION_RESET")
         (navigated env0)) ∧
  attempt_loop web_timeout_first "alice" (Some sample_log) 3 0 None env0 =
    (Fulfilled None, printed (TimeoutExceeded "alice") (navigated env0)) ∧
  ∃ st', scrapeTikTokProfile web_missing "ghost" 3 (Some sample_log) env0 =
           (Fulfilled (ErrorEntry "ghost" failed_message), st') ∧
         (navigations st' ≤ navigations env0 + 3)%nat.
Proof.
  split; [|split].
  - exact (proj1 (thrown_error_policy web_flaky "alice" sample_log)
             2%nat 0%nat None env0 "net::ERR_CONNECTION_RESET" eq_refl eq_refl).
  - exact (proj1 (proj2 (thrown_error_policy web_timeout_first "alice" sample_log))
             (Some sample_log) 2%nat 0%nat None env0
             "Navigation Timeout Exceeded: 90000ms exceeded" eq_refl eq_refl).
  - apply (proj2 (proj2 (thrown_error_policy web_missing "ghost" sample_log))).
    intros n content _ Hrun. discriminate Hrun.
Defined.

Lemma rendered_page_policy_witness :
  (2 < 3)%nat ∧
  (∀ j, (j < 2)%nat → ∃ c,
     web_slow_render (profile_url "alice") (navigations env0 + j) = Rendered c ∧
     pc_items c = []) ∧
  web_slow_render (profile_url "alice") (navigations env0 + 2) = Rendered (sample_page 2) ∧
  pc_items (sample_page 2) ≠ [] ∧
  scrapeTikTokProfile web_slow_render "alice" 3 (Some sample_log) env0 =
    (Fulfilled (Profile "alice" (extract (sample_page 2))), Nat.iter 3 navigated env0) ∧
  navigations (Nat.iter 3 navigated env0) = (navigations env0 + 2 + 1)%nat.
Proof.
  assert (H1 : (2 < 3)%nat) by lia.
  assert (H2 : ∀ j, (j < 2)%nat → ∃ c,
     web_slow_render (profile_url "alice") (navigations env0 + j) = Rendered c ∧
     pc_items c = []).
  { intros [|[|j]] Hj; [by exists (sample_page 0)..|lia]. }
  assert (H3 : web_slow_render (profile_url "alice") (navigations env0 + 2)
               = Rendered (sample_page 2)) by reflexivity.
  assert (H4 : pc_items (sample_page 2) ≠ []) by discriminate.
  split; [exact H1|]. split; [exact H2|]. split; [exact H3|]. split; [exact H4|].
  destruct (rendered_page_policy web_slow_render "alice" (Some sample_log) 3 env0 2
              (sample_page 2) H1 H2 H3 H4) as (Hrun & Hnav & _).
  split; [exact Hrun|exact Hnav].
Defined.

Lemma totals_of_run_witness :
  processInBatches ["ana"; "ben"; "cleo"] 2 sample_mixed_task None (completion_reversed 2) 3
    = Some (Fulfilled sample_results,
            {| bar_total := 3; bar_value := 3; bar_username := "@cleo";
               bar_active := false |}) ∧
  validateVideoCounts (web_renders 21) sample_results (Some sample_report)
    (Some sample_log) env0 = (Fulfilled sample_results, env0) ∧
  totals ["ana"; "ben"; "cleo"] sample_results =
    {| Totals.totalUsers := 3;
       Totals.totalVideos := 15;
       Totals.totalFollowers := 1000;
       Totals.totalLikes := 400;
       Totals.totalViews := 18000 |}.
Proof.
  assert (H1 : processInBatches ["ana"; "ben"; "cleo"] 2 sample_mixed_task None
                 (completion_reversed 2) 3
               = Some (Fulfilled sample_results,
                       {| bar_total := 3; bar_value := 3; bar_username := "@cleo";
                          bar_active := false |})) by (vm_compute; reflexivity).
  assert (H2 : validateVideoCounts (web_renders 21) sample_results (Some sample_report)
                 (Some sample_log) env0 = (Fulfilled sample_results, env0))
    by (vm_compute; reflexivity).
  split; [exact H1|]. split; [exact H2|].
  rewrite (proj1 (totals_of_run _ _ _ _ _ _ _ _ _ _ _ _ _ H1 H2)).
  vm_compute. reflexivity.
Defined.

Lemma differences_per_field_witness :
  report_totals sample_report = Some sample_previous_totals ∧
  differences sample_totals (Some sample_report) =
    Fulfilled (Some
      {| Totals.totalUsers := 1;
         Totals.totalVideos := -10;
         Totals.totalFollowers := 80;
         Totals.totalLikes := 0;
         Totals.totalViews := 0 |}) ∧
  differences sample_totals None = Fulfilled None.
Proof.
  split; [reflexivity|]. split.
  - rewrite (proj1 (proj2 (differences_per_field sample_totals))
               sample_report sample_previous_totals eq_refl).
    reflexivity.
  - exact (proj1 (differences_per_field sample_totals)).
Defined.

Lemma document_fields_witness :
  (∀ report, Some sample_report = Some report → is_Some (report_totals report)) ∧
  ∃ doc deltas,
    main_report sample_toFixed1 ["ana"; "ben"; "cleo"] sample_results (Some sample_report)
      (Some 5%nat) "2024-06-10T09:00:00.000Z" = Fulfilled (doc, deltas) ∧
    object_keys doc = ["timestamp"; "results"; "totals"; "highest"] ∧
    get_field "deltas" doc = None ∧
    is_Some deltas.
Proof.
  assert (H1 : ∀ report, Some sample_report = Some report → is_Some (report_totals report)).
  { intros report [= <-]. by exists sample_previous_totals. }
  split; [exact H1|].
  destruct (document_fields sample_toFixed1 ["ana"; "ben"; "cleo"] sample_results
              (Some sample_report) (Some 5%nat) "2024-06-10T09:00:00.000Z" H1)
    as (doc & deltas & Hrun & Hkeys & _ & _ & _ & _ & Hno & Hdeltas).
  exists doc, deltas. split; [exact Hrun|]. split; [exact Hkeys|]. split; [exact Hno|].
  apply Hdeltas. by exists sample_report.
Defined.

(** * Further properties of the retry loop *)

Section StringFacts.

(** A needle without the character that follows [s] cannot reach past [s]. *)
Lemma prefix_before_separator (sep : ascii) (tail : string) :
  ∀ s needle,
    occurs sep needle = false →
    String.prefix needle (s +:+ String sep tail) = String.prefix needle s.
Proof.
  induction s as [|c s IH]; intros [|a needle] Hsep; try reflexivity.
  - cbn [occurs] in Hsep. simpl.
    apply orb_false_elim in Hsep as [Ha _].
    apply Ascii.eqb_neq in Ha. by destruct (ascii_dec a sep).
  - cbn [occurs] in Hsep. simpl.
    apply orb_false_elim in Hsep as [_ Hneedle].
    destruct (ascii_dec a c); [by apply IH|done].
Qed.

Lemma includes_before_separator (sep : ascii) (tail needle : string) :
  occurs sep needle = false →
  includes needle (String sep tail) = false →
  ∀ s, includes needle (s +:+ String sep tail) = includes needle s.
Proof.
  intros Hsep Htail s. induction s as [|c s IH].
  - change ("" +:+ String sep tail) with (String sep tail). rewrite Htail.
    destruct needle as [|a needle]; [by destruct tail|done].
  - change (String c s +:+ String sep tail) with (String c (s +:+ String sep tail)).
    cbn [includes]. rewrite IH.
    change (String c (s +:+ String sep tail)) with (String c s +:+ String sep tail).
    by rewrite prefix_before_separator.
Qed.

(** The error message for a missing profile contains [Timeout] exactly when
    the username does. *)
Lemma not_exist_message_timeout (name : string) :
  includes "Timeout" (not_exist_message name) = includes "Timeout" name.
Proof.
  unfold not_exist_message.
  change (includes "Timeout" ("User @" +:+ name +:+ " does not exist or is unavailable."))
    with (includes "Timeout" (name +:+ " does not exist or is unavailable.")).
  by apply includes_before_separator.
Qed.

End StringFacts.

Section RetryLoopFacts.

Context (web : string → nat → PageRun).

(** What a call with a log file leaves behind: lines of its own in the log,
    at most one message on the console, and no more of either than
    navigations made. *)
Lemma attempt_loop_trace name path remaining :
  ∀ attempts data st, ∃ data' st' lines msgs,
    attempt_loop web name (Some path) remaining attempts data st = (Fulfilled data', st') ∧
    appended st' = appended st ++ lines ∧
    console st' = console st ++ msgs ∧
    Forall (λ entry, entry.1 = path ∧ rl_username entry.2 = name ∧
                     (attempts < rl_attempt entry.2 ≤ attempts + remaining)%nat) lines ∧
    (msgs = [] ∨ msgs = [TimeoutExceeded name]) ∧
    (navigations st + length lines + length msgs ≤ navigations st')%nat.
Proof.
  induction remaining as [|remaining IH]; intros attempts data st.
  { exists data, st, [], []. rewrite !app_nil_r. repeat split; auto. cbn. lia. }
  destruct (run_cases name (web (profile_url name) (navigations st)))
    as [[message Hcaught]|[content Hrun]].
  - rewrite (attempt_loop_caught _ _ _ _ _ _ _ message Hcaught).
    destruct (includes "Timeout" message).
    + eexists _, _, [], [TimeoutExceeded name]. split; [reflexivity|].
      rewrite app_nil_r. repeat split; auto. cbn. lia.
    + destruct (IH (S attempts) data
        (logged path (retry_line name (S attempts) message) (navigated st)))
        as (data' & st' & lines & msgs & -> & Hlog & Hconsole & Hlines & Hmsgs & Hnav).
      exists data', st', ((path, retry_line name (S attempts) message) :: lines), msgs.
      split; [done|]. cbn in Hlog, Hconsole, Hnav. rewrite <- app_assoc in Hlog.
      repeat split; [done|done| |done|cbn; lia].
      constructor; [cbn; repeat split; lia|].
      eapply Forall_impl; [exact Hlines|]. cbn. intros entry (? & ? & ?). repeat split; [done..|lia|lia].
  - rewrite (attempt_loop_rendered _ _ _ _ _ _ _ content Hrun).
    destruct (0 <? length (pc_items content))%nat.
    + eexists _, _, [], []. split; [reflexivity|]. rewrite !app_nil_r.
      repeat split; auto. cbn. lia.
    + destruct (IH (S attempts) (Some (extract content)) (navigated st))
        as (data' & st' & lines & msgs & -> & Hlog & Hconsole & Hlines & Hmsgs & Hnav).
      exists data', st', lines, msgs. split; [done|]. cbn in Hlog, Hconsole, Hnav.
      repeat split; [done|done| |done|lia].
      eapply Forall_impl; [exact Hlines|]. cbn. intros entry (? & ? & ?). repeat split; [done..|lia|lia].
Qed.

(** Data with videos at the end of the loop is what the last navigation
    rendered. *)
Lemma attempt_loop_usable name logFilePath remaining :
  ∀ attempts data st d st',
    unusable data →
    attempt_loop web name logFilePath remaining attempts data st = (Fulfilled (Some d), st') →
    videos d ≠ [] →
    (navigations st < navigations st' ≤ navigations st + remaining)%nat ∧
    ∃ content, web (profile_url name) (navigations st' - 1) = Rendered content ∧
               d = extract content.
Proof.
  induction remaining as [|remaining IH]; intros attempts data st d st' Hdata Hloop Hvideos.
  { cbn in Hloop. inversion Hloop; subst. by cbn in Hdata. }
  destruct (run_cases name (web (profile_url name) (navigations st)))
    as [[message Hcaught]|[content Hrun]].
  - rewrite (attempt_loop_caught _ _ _ _ _ _ _ message Hcaught) in Hloop.
    destruct (includes "Timeout" message).
    { inversion Hloop; subst. by cbn in Hdata. }
    destruct logFilePath as [path|]; [|done].
    apply IH in Hloop as [Hnav Hlast]; [|done..]. cbn in Hnav. split; [lia|done].
  - rewrite (attempt_loop_rendered _ _ _ _ _ _ _ content Hrun) in Hloop.
    destruct (0 <? length (pc_items content))%nat eqn:Hlen.
    + inversion Hloop; subst. cbn. split; [lia|].
      exists content. by rewrite Nat.sub_0_r.
    + apply IH in Hloop as [Hnav Hlast]; [|by apply Nat.ltb_ge, Nat.le_0_r, length_zero_iff_nil in Hlen|done].
      cbn in Hnav. split; [lia|done].
Qed.

(** Renderings without videos are each followed by a further attempt. *)
Lemma attempt_loop_skips_empty name logFilePath k :
  ∀ remaining attempts data st,
    (∀ j, (j < k)%nat → ∃ c,
       web (profile_url name) (navigations st + j) = Rendered c ∧ pc_items c = []) →
    ∃ data',
      attempt_loop web name logFilePath (k + remaining) attempts data st =
      attempt_loop web name logFilePath remaining (k + attempts) data'
        (Nat.iter k navigated st).
Proof.
  induction k as [|k IH]; intros remaining attempts data st Hempty; [by exists data|].
  destruct (Hempty 0%nat) as (c & Hc & Hnil); [lia|].
  rewrite Nat.add_0_r in Hc. cbn [Nat.add].
  rewrite (attempt_loop_rendered _ _ _ _ _ _ _ _ Hc), Hnil. cbn [length Nat.ltb Nat.leb].
  destruct (IH remaining (S attempts) (Some (extract c)) (navigated st)) as [data' Heq].
  { intros j Hj. destruct (Hempty (S j)) as (c' & Hc' & Hnil'); [lia|].
    exists c'. split; [|done]. rewrite <- Hc'. f_equal. cbn. lia. }
  exists data'. rewrite Heq, iter_navigated_shift. f_equal. lia.
Qed.

Lemma foldl_add_sum {A} (f : A → Z) (l : list A) : ∀ acc,
  foldl (λ total x, total + f x) acc l = acc + sum_Z (f <$> l).
Proof.
  induction l as [|x l IH]; intros acc; cbn; [lia|]. rewrite IH. unfold sum_Z. lia.
Qed.

(** X1.  Called with a log file, the executor always answers, and for the
    username it was asked about.  It navigates at least once when an attempt
    is allowed and never more often than [retries]; it only adds to the log
    and the console: log lines of its own username in the given file, with
    attempt numbers from 1 to [retries], and at most the one timeout
    message; and lines and messages together are no more than the
    navigations made. *)
Theorem scrape_with_log_answers (name : string) (retries : nat) (path : string) (st : Env) :
  ∃ user st' lines msgs,
    scrapeTikTokProfile web name retries (Some path) st = (Fulfilled user, st') ∧
    username user = name ∧
    (navigations st + Nat.min 1 retries ≤ navigations st' ≤ navigations st + retries)%nat ∧
    appended st' = appended st ++ lines ∧
    console st' = console st ++ msgs ∧
    Forall (λ entry, entry.1 = path ∧ rl_username entry.2 = name ∧
                     (1 ≤ rl_attempt entry.2 ≤ retries)%nat) lines ∧
    (msgs = [] ∨ msgs = [TimeoutExceeded name]) ∧
    (navigations st + length lines + length msgs ≤ navigations st')%nat.
Proof.
  destruct (attempt_loop_trace name path retries 0 None st)
    as (data & st' & lines & msgs & Hloop & Hlog & Hconsole & Hlines & Hmsgs & Hcount).
  destruct (attempt_loop_ends web name path retries 0 None st)
    as (data2 & st2 & Hloop2 & Hnav & _).
  rewrite Hloop in Hloop2. inversion Hloop2; subst data2 st2.
  rewrite (scrape_of_loop _ _ _ _ _ _ _ Hloop).
  eexists _, st', lines, msgs. split; [reflexivity|].
  split; [|split; [lia|]; split; [done|]; split; [done|]; split; [|by split]].
  - destruct data as [d|]; [|done]. by destruct (length (videos d) =? 0)%nat.
  - eapply Forall_impl; [exact Hlines|]. cbn.
    intros entry (? & ? & ?). repeat split; [done..|lia|lia].
Qed.

(** X2.  A profile that the executor returns carries the username asked
    for and is exactly what the last navigation of the call rendered: it has
    videos, [totalVideos] is their number and [totalViews] the sum of their
    views. *)
Theorem scraped_profile_is_last_rendering (name : string) (retries : nat)
    (logFilePath : option string) (st st' : Env) (name' : string) (d : Data) :
  scrapeTikTokProfile web name retries logFilePath st = (Fulfilled (Profile name' d), st') →
  name' = name ∧
  videos d ≠ [] ∧
  totalVideos d = Z.of_nat (length (videos d)) ∧
  totalViews d = sum_Z (views <$> videos d) ∧
  (navigations st < navigations st' ≤ navigations st + retries)%nat ∧
  ∃ content, web (profile_url name) (navigations st' - 1) = Rendered content ∧
             d = extract content.
Proof.
  intros Hrun. unfold scrapeTikTokProfile, mbind, M_bind in Hrun.
  destruct (attempt_loop web name logFilePath retries 0 None st)
    as [[[d'|]|reason] st2] eqn:Hloop; [|done..].
  destruct (length (videos d') =? 0)%nat eqn:Hlen; [done|].
  inversion Hrun; subst name' d' st2. apply Nat.eqb_neq in Hlen.
  assert (Hvideos : videos d ≠ []) by (intros Hnil; by rewrite Hnil in Hlen).
  destruct (attempt_loop_usable name logFilePath retries 0 None st d st' I Hloop Hvideos)
    as (Hnav & content & Hweb & ->).
  repeat split; [done| |lia|lia|by exists content].
  cbn. unfold sum_views. by rewrite foldl_add_sum.
Qed.

(** X3.  Called without a log file path, as the batches of the main
    function do, the executor is rejected by the first error it has to log:
    after any number of renderings without videos, a caught error whose
    message does not contain [Timeout] ends the call with the [TypeError] of
    [appendFileSync], the remaining attempts unused. *)
Theorem scrape_without_log_path_rejects (name : string) (retries : nat) (st : Env)
    (k : nat) (message : string) :
  (k < retries)%nat →
  (∀ j, (j < k)%nat → ∃ c,
     web (profile_url name) (navigations st + j) = Rendered c ∧ pc_items c = []) →
  caught_message name (web (profile_url name) (navigations st + k)) = Some message →
  includes "Timeout" message = false →
  scrapeTikTokProfile web name retries None st =
  (Rejected "TypeError [ERR_INVALID_ARG_TYPE]: The path argument must be of type string",
   Nat.iter (S k) navigated st).
Proof.
  intros Hk Hempty Hcaught Hmessage.
  replace retries with (k + S (retries - k - 1))%nat by lia.
  unfold scrapeTikTokProfile, mbind, M_bind.
  destruct (attempt_loop_skips_empty name None k (S (retries - k - 1)) 0 None st Hempty)
    as [data' ->].
  rewrite (attempt_loop_caught _ _ _ _ _ _ _ message).
  - by rewrite Hmessage.
  - by rewrite navigations_iter.
Qed.

(** X4.  A profile whose page is the error page at every visit, with at
    least one attempt allowed.  When its username contains [Timeout] the
    message of the error thrown for it looks like a timeout: the call ends
    after one navigation with the failure entry, with or without a log file.
    Otherwise, with a log file it costs every one of the [retries]
    navigations and ends with the failure entry, and without one, as the
    batches of the main function call it, it is rejected after the first
    navigation by the [TypeError] of [appendFileSync]. *)
Theorem missing_profile_navigations (name : string) (retries : nat)
    (logFilePath : option string) (st : Env) :
  (1 ≤ retries)%nat →
  (∀ n, web (profile_url name) n = ErrorPage) →
  if includes "Timeout" name then
    scrapeTikTokProfile web name retries logFilePath st =
      (Fulfilled (ErrorEntry name failed_message),
       printed (TimeoutExceeded name) (navigated st))
  else
    match logFilePath with
    | Some path =>
        ∃ st',
          scrapeTikTokProfile web name retries (Some path) st =
            (Fulfilled (ErrorEntry name failed_message), st') ∧
          navigations st' = (navigations st + retries)%nat
    | None =>
        scrapeTikTokProfile web name retries None st =
          (Rejected
             "TypeError [ERR_INVALID_ARG_TYPE]: The path argument must be of type string",
           navigated st)
    end.
Proof.
  intros Hretries Hweb. unfold scrapeTikTokProfile, mbind, M_bind.
  destruct (includes "Timeout" name) eqn:Hname.
  - destruct retries as [|retries]; [lia|].
    rewrite (attempt_loop_caught _ _ _ _ _ _ _ (not_exist_message name))
      by (by rewrite Hweb).
    by rewrite not_exist_message_timeout, Hname.
  - destruct logFilePath as [path|].
    + destruct (missing_profile_costs_every_attempt web name path retries) with
        (attempts := 0%nat) (data := @None Data) (st := st) as (st' & -> & Hnav & _).
      * by rewrite not_exist_message_timeout.
      * done.
      * by exists st'.
    + destruct retries as [|retries]; [lia|].
      rewrite (attempt_loop_caught _ _ _ _ _ _ _ (not_exist_message name))
        by (by rewrite Hweb).
      by rewrite not_exist_message_timeout, Hname.
Qed.

End RetryLoopFacts.

(** * Further properties of the batch scheduler *)

Section PromiseAllFacts.

Context {R : Type}.
Implicit Types (batch : list (string * settled R)) (values : list (option R)).

(** When [Promise.all] delivers, the bar has moved once per promise that
    was pending. *)
Lemma Promise_all_bar batch completion :
  ∀ values bar vs bar',
    Promise_all batch values completion bar = Some (Fulfilled vs, bar') →
    bar_value bar' = (bar_value bar + pending values)%nat ∧
    bar_total bar' = bar_total bar ∧ bar_active bar' = bar_active bar.
Proof.
  induction completion as [|idx rest IH]; intros values bar vs bar'.
  - rewrite Promise_all_nil. destruct (mapM id values) as [vs'|] eqn:HmapM; [|done].
    intros [= <- <-]. rewrite (pending_delivered _ _ HmapM). by rewrite Nat.add_0_r.
  - rewrite Promise_all_cons. destruct (mapM id values) as [vs'|] eqn:HmapM.
    { intros [= <- <-]. rewrite (pending_delivered _ _ HmapM). by rewrite Nat.add_0_r. }
    destruct (values !! idx) as [[r|]|] eqn:Hv; [by apply IH| |by apply IH].
    destruct (batch !! idx) as [[name [result|reason]]|] eqn:Hb; [|done|by apply IH].
    intros Hrun. apply IH in Hrun as (Hvalue & Htotal & Hactive).
    cbn [bar_increment bar_value bar_total bar_active] in *.
    rewrite <- (pending_insert values idx result Hv). repeat split; [lia|done..].
Qed.

(** A rejection of [Promise.all] is the rejection of one of its promises. *)
Lemma Promise_all_rejected batch completion :
  ∀ values bar reason bar',
    Promise_all batch values completion bar = Some (Rejected reason, bar') →
    ∃ name, (name, Rejected reason) ∈ batch.
Proof.
  induction completion as [|idx rest IH]; intros values bar reason bar'.
  - rewrite Promise_all_nil. by destruct (mapM id values).
  - rewrite Promise_all_cons. destruct (mapM id values); [done|].
    destruct (values !! idx) as [[r|]|]; [by apply IH| |by apply IH].
    destruct (batch !! idx) as [[name [result|reason']]|] eqn:Hb; [by apply IH| |by apply IH].
    intros [= -> _]. exists name. by eapply list_elem_of_lookup_2.
Qed.

(** When every pending promise settles, [Promise.all] settles. *)
Lemma Promise_all_settles batch completion :
  ∀ values bar,
    length values = length batch →
    all_settle values completion →
    ∃ outcome bar', Promise_all batch values completion bar = Some (outcome, bar').
Proof.
  induction completion as [|idx rest IH]; intros values bar Hlen Hall.
  - rewrite Promise_all_nil. destruct (mapM id values) as [vs|] eqn:HmapM; [by eauto|].
    apply mapM_None, Exists_exists in HmapM as (x & Hx & Hnone).
    cbn in Hnone. subst x. apply list_elem_of_lookup in Hx as [i Hi].
    by apply Hall, elem_of_nil in Hi.
  - rewrite Promise_all_cons. destruct (mapM id values) as [vs|] eqn:HmapM; [by eauto|].
    assert (Hskip : values !! idx ≠ Some None → all_settle values rest).
    { intros Hidx i Hi. specialize (Hall i Hi).
      apply elem_of_cons in Hall as [->|?]; done. }
    destruct (values !! idx) as [[r|]|] eqn:Hv; [by apply IH, Hskip| |by apply IH, Hskip].
    destruct (batch !! idx) as [[name [result|reason]]|] eqn:Hb; [|by eauto|].
    + apply IH; [by rewrite length_insert|].
      intros i Hi. destruct (decide (idx = i)) as [->|Hne].
      * rewrite list_lookup_insert_eq in Hi by (by eapply lookup_lt_Some). done.
      * rewrite list_lookup_insert_ne in Hi by done. specialize (Hall i Hi).
        apply elem_of_cons in Hall as [->|?]; done.
    + apply lookup_lt_Some in Hv. apply lookup_ge_None in Hb. lia.
Qed.

End PromiseAllFacts.

Section SchedulerFacts.

Context {R : Type}.
Context (usernames : list string) (batchSize : nat).
Context (task : string → option string → settled R) (logFilePath : option string).
Context (completion : nat → list nat).

Lemma batches_loop_sound fuel :
  ∀ i results bar out bar',
    batches_loop usernames batchSize task logFilePath completion fuel i results bar
      = Some (Fulfilled out, bar') →
    ∃ outs,
      out = results ++ outs ∧
      Forall2 (λ name outcome, task name logFilePath = Fulfilled outcome)
        (drop i usernames) outs ∧
      bar_value bar' = (bar_value bar + (length usernames - i))%nat ∧
      bar_active bar' = false.
Proof.
  induction fuel as [|fuel IH]; intros i results bar out bar'; cbn [batches_loop];
    destruct (i <? length usernames)%nat eqn:Hi; try done;
    try (apply Nat.ltb_ge in Hi; intros [= <- <-]; exists [];
         rewrite app_nil_r, drop_ge by lia; repeat split; [constructor|cbn; lia]).
  apply Nat.ltb_lt in Hi.
  destruct (Promise_all _ _ _ _) as [[[rs|reason] bar1]|] eqn:Hall; [|done..].
  intros Hrun. apply IH in Hrun as (outs & -> & Houts & Hvalue & Hactive).
  pose proof (Promise_all_bar _ _ _ _ _ _ Hall) as (Hvalue1 & _ & _).
  rewrite pending_replicate, length_fmap in Hvalue1.
  apply Promise_all_sound in Hall; [|apply stored_from_replicate].
  apply Forall2_fmap_l in Hall. cbn in Hall.
  exists (rs ++ outs). split; [by rewrite app_assoc|]. split; [|split; [|done]].
  - rewrite <- (take_drop batchSize (drop i usernames)).
    apply Forall2_app; [|by rewrite drop_drop].
    unfold slice in Hall. by replace (i + batchSize - i)%nat with batchSize in Hall by lia.
  - rewrite Hvalue, Hvalue1. unfold slice. rewrite length_take, length_drop. lia.
Qed.

(** With a batch size of zero the loop stays where it is. *)
Lemma batches_loop_stuck fuel :
  batchSize = 0%nat →
  ∀ i results bar,
    (i < length usernames)%nat →
    batches_loop usernames batchSize task logFilePath completion fuel i results bar = None.
Proof.
  intros ->. induction fuel as [|fuel IH]; intros i results bar Hi; cbn [batches_loop];
    (destruct (i <? length usernames)%nat eqn:Hlt; [|apply Nat.ltb_ge in Hlt; lia]);
    [done|].
  assert (Hslice : slice i (i + 0) usernames = []).
  { unfold slice. replace (i + 0 - i)%nat with 0%nat by lia. apply take_0. }
  rewrite Hslice. change (Promise_all _ _ (completion i) bar)
    with (Promise_all (@nil (string * settled R)) [] (completion i) bar).
  assert (Hall : Promise_all (@nil (string * settled R)) [] (completion i) bar
                 = Some (Fulfilled [], bar)) by (by destruct (completion i)).
  rewrite Hall, Nat.add_0_r, app_nil_r. by apply IH.
Qed.

Hypothesis batchSize_positive : (1 ≤ batchSize)%nat.
Hypothesis promises_settle :
  ∀ i j, (j < length (slice i (i + batchSize) usernames))%nat → j ∈ completion i.

Lemma rounds_step i :
  (i < length usernames)%nat →
  rounds (length usernames - i) batchSize
  = S (rounds (length usernames - (i + batchSize)) batchSize).
Proof.
  intros Hi. unfold rounds.
  destruct (decide (length usernames - i ≤ batchSize)%nat) as [Hle|Hgt].
  - replace (length usernames - (i + batchSize))%nat with 0%nat by lia.
    rewrite (Nat.div_small (0 + batchSize - 1)) by lia.
    symmetry. apply (Nat.div_unique _ _ _ (length usernames - i - 1)); lia.
  - replace (length usernames - i + batchSize - 1)%nat
      with (length usernames - (i + batchSize) + batchSize - 1 + 1 * batchSize)%nat by lia.
    rewrite Nat.div_add by lia. lia.
Qed.

(** Given a round per batch, the loop settles. *)
Lemma batches_loop_settles fuel :
  ∀ i results bar,
    (rounds (length usernames - i) batchSize ≤ fuel)%nat →
    ∃ outcome bar',
      batches_loop usernames batchSize task logFilePath completion fuel i results bar
        = Some (outcome, bar').
Proof.
  induction fuel as [|fuel IH]; intros i results bar Hfuel; cbn [batches_loop];
    (destruct (i <? length usernames)%nat eqn:Hi; [apply Nat.ltb_lt in Hi|by eauto]).
  { rewrite rounds_step in Hfuel by done. lia. }
  rewrite rounds_step in Hfuel by done.
  destruct (Promise_all_settles
              ((λ name, (name, task name logFilePath)) <$> slice i (i + batchSize) usernames)
              (completion i)
              (replicate (length ((λ name, (name, task name logFilePath))
                                    <$> slice i (i + batchSize) usernames)) None) bar)
    as ([rs|reason] & bar1 & ->); [apply length_replicate| | |by eauto].
  - intros j Hj. apply lookup_replicate_1 in Hj as [_ Hj].
    apply promises_settle. by rewrite length_fmap in Hj.
  - apply IH. lia.
Qed.

Context (outcomes : list R).
Hypothesis tasks_fulfil :
  Forall2 (λ name outcome, task name logFilePath = Fulfilled outcome) usernames outcomes.

(** With fewer rounds than batches the loop is still under way. *)
Lemma batches_loop_unfinished fuel :
  ∀ i results bar,
    (fuel < rounds (length usernames - i) batchSize)%nat →
    batches_loop usernames batchSize task logFilePath completion fuel i results bar = None.
Proof.
  induction fuel as [|fuel IH]; intros i results bar Hfuel; cbn [batches_loop];
    (destruct (i <? length usernames)%nat eqn:Hi;
     [apply Nat.ltb_lt in Hi
     |apply Nat.ltb_ge in Hi;
      replace (length usernames - i)%nat with 0%nat in Hfuel by lia;
      unfold rounds in Hfuel; rewrite Nat.div_small in Hfuel; lia]); [done|].
  rewrite rounds_step in Hfuel by done.
  destruct (batch_delivers usernames batchSize task logFilePath completion outcomes
              tasks_fulfil promises_settle i bar) as (bar1 & -> & _).
  apply IH. lia.
Qed.

End SchedulerFacts.

Section SchedulerOutcomes.

Context {R : Type}.
Context (usernames : list string) (batchSize : nat).
Context (task : string → option string → settled R) (logFilePath : option string).
Context (completion : nat → list nat).

(** A rejection of the loop is the rejection of the task of a username. *)
Lemma batches_loop_rejected fuel :
  ∀ i results bar reason bar',
    batches_loop usernames batchSize task logFilePath completion fuel i results bar
      = Some (Rejected reason, bar') →
    ∃ name, name ∈ usernames ∧ task name logFilePath = Rejected reason.
Proof.
  induction fuel as [|fuel IH]; intros i results bar reason bar'; cbn [batches_loop];
    destruct (i <? length usernames)%nat; try done.
  destruct (Promise_all _ _ _ _) as [[[rs|reason'] bar1]|] eqn:Hall; [by apply IH| |done].
  intros [= -> _]. apply Promise_all_rejected in Hall as [name Hname].
  apply list_elem_of_fmap in Hname as (name' & [= -> Htask] & Hin).
  exists name'. split; [|done]. unfold slice in Hin.
  by apply subseteq_take, subseteq_drop in Hin.
Qed.

Lemma fulfilments_unique (names : list string) (outs1 outs2 : list R) :
  Forall2 (λ name outcome, task name logFilePath = Fulfilled outcome) names outs1 →
  Forall2 (λ name outcome, task name logFilePath = Fulfilled outcome) names outs2 →
  outs1 = outs2.
Proof.
  intros H1. revert outs2. induction H1 as [|name o1 names outs1 Ho1 _ IH]; intros outs2 H2.
  - by inversion H2.
  - inversion H2 as [|? o2 ? outs2' Ho2 H2']; subst. f_equal; [congruence|by apply IH].
Qed.

End SchedulerOutcomes.

(** X5.  Whatever the batch size, the tasks and the order in which promises
    settle: a list that [processInBatches] returns holds, position by
    position, what the tasks of the usernames were fulfilled with, and by
    then the progress bar has been moved once per username and is stopped.
    No entry is ever made up, dropped or moved. *)
Theorem processInBatches_returns_fulfilments {R} (usernames : list string)
    (batchSize : nat) (task : string → option string → settled R)
    (logFilePath : option string) (completion : nat → list nat) (fuel : nat)
    (results : list R) (bar : ProgressBar) :
  processInBatches usernames batchSize task logFilePath completion fuel
    = Some (Fulfilled results, bar) →
  Forall2 (λ name outcome, task name logFilePath = Fulfilled outcome) usernames results ∧
  bar_value bar = length usernames ∧
  bar_total bar = length usernames ∧
  bar_active bar = false.
Proof.
  unfold processInBatches. intros Hrun.
  pose proof (batches_loop_length _ _ _ _ _ _ _ _ _ _ _ Hrun) as Hlen.
  assert (Htotal : bar_total bar = length usernames).
  { clear Hlen. revert Hrun. generalize (@nil R). generalize 0%nat.
    assert (Hstart : bar_total (bar_start (length usernames)) = length usernames) by done.
    revert Hstart. generalize (bar_start (length usernames)).
    induction fuel as [|fuel IH]; intros bar0 Hbar0 i acc; cbn [batches_loop];
      destruct (i <? length usernames)%nat; try done; try by intros [= _ <-].
    destruct (Promise_all _ _ _ _) as [[[rs|reason] bar1]|] eqn:Hall; [|done..].
    apply Promise_all_bar in Hall as (_ & Htotal1 & _).
    apply IH. congruence. }
  apply batches_loop_sound in Hrun as (outs & -> & Houts & Hvalue & Hactive).
  rewrite drop_0 in Houts. cbn in Hvalue. repeat split; [done|lia|done|done].
Qed.

(** X6.  When every task is fulfilled and every promise settles, the loop
    of [processInBatches] makes exactly as many rounds as [batchSize] cuts
    the usernames into: with fewer rounds it has not returned yet, and with
    that many it returns the outcomes. *)
Theorem processInBatches_rounds {R} (usernames : list string)
    (batchSize : nat) (task : string → option string → settled R)
    (logFilePath : option string) (completion : nat → list nat)
    (outcomes : list R) (fuel : nat) :
  (1 ≤ batchSize)%nat →
  Forall2 (λ name outcome, task name logFilePath = Fulfilled outcome) usernames outcomes →
  (∀ i j, (j < length (slice i (i + batchSize) usernames))%nat → j ∈ completion i) →
  ((fuel < rounds (length usernames) batchSize)%nat →
   processInBatches usernames batchSize task logFilePath completion fuel = None) ∧
  ((rounds (length usernames) batchSize ≤ fuel)%nat →
   ∃ bar, processInBatches usernames batchSize task logFilePath completion fuel
          = Some (Fulfilled outcomes, bar)).
Proof.
  intros Hsize Htasks Hsettle. unfold processInBatches. split; intros Hfuel.
  - eapply batches_loop_unfinished; eauto. by rewrite Nat.sub_0_r.
  - destruct (batches_loop_settles usernames batchSize task logFilePath completion
                Hsize Hsettle fuel 0 [] (bar_start (length usernames)))
      as ([outs|reason] & bar & Hrun); [by rewrite Nat.sub_0_r| |].
    + exists bar. rewrite Hrun. do 3 f_equal.
      apply batches_loop_sound in Hrun as (outs' & -> & Houts & _).
      rewrite drop_0 in Houts. cbn. by eapply fulfilments_unique.
    + apply batches_loop_rejected in Hrun as (name & Hin & Hrej).
      apply list_elem_of_lookup in Hin as [i Hi].
      destruct (Forall2_lookup_l _ _ _ _ _ Htasks Hi) as (o & _ & Hful). congruence.
Qed.

(** X7.  With a batch size of zero and at least one username the loop
    never advances: [processInBatches] does not return, however many rounds
    it is given. *)
Theorem processInBatches_zero_batch_hangs {R} (usernames : list string)
    (task : string → option string → settled R) (logFilePath : option string)
    (completion : nat → list nat) (fuel : nat) :
  usernames ≠ [] →
  processInBatches usernames 0 task logFilePath completion fuel = None.
Proof.
  intros Hne. unfold processInBatches. apply batches_loop_stuck; [done|].
  destruct usernames; [done|cbn; lia].
Qed.

(** X8.  When the task of some username is rejected, [processInBatches]
    never returns a list: once every promise settles and the rounds suffice
    it is rejected itself, with the reason of a rejected task; the outcomes
    of all the other usernames are lost with it. *)
Theorem processInBatches_rejects {R} (usernames : list string)
    (batchSize : nat) (task : string → option string → settled R)
    (logFilePath : option string) (completion : nat → list nat) (fuel : nat)
    (name : string) (reason : string) :
  (1 ≤ batchSize)%nat →
  (∀ i j, (j < length (slice i (i + batchSize) usernames))%nat → j ∈ completion i) →
  (rounds (length usernames) batchSize ≤ fuel)%nat →
  name ∈ usernames →
  task name logFilePath = Rejected reason →
  ∃ reason' bar name',
    processInBatches usernames batchSize task logFilePath completion fuel
      = Some (Rejected reason', bar) ∧
    name' ∈ usernames ∧ task name' logFilePath = Rejected reason'.
Proof.
  intros Hsize Hsettle Hfuel Hin Hrej. unfold processInBatches.
  destruct (batches_loop_settles usernames batchSize task logFilePath completion
              Hsize Hsettle fuel 0 [] (bar_start (length usernames)))
    as ([outs|reason'] & bar & Hrun); [by rewrite Nat.sub_0_r| |].
  - apply batches_loop_sound in Hrun as (outs' & _ & Houts & _).
    rewrite drop_0 in Houts. apply list_elem_of_lookup in Hin as [i Hi].
    destruct (Forall2_lookup_l _ _ _ _ _ Houts Hi) as (o & _ & Hful). congruence.
  - pose proof (batches_loop_rejected _ _ _ _ _ _ _ _ _ _ _ Hrun) as (name' & Hin' & Hrej').
    by exists reason', bar, name'.
Qed.

(** * Further properties of the validation *)

Section ValidationCosts.

Context (web : string → nat → PageRun).

Lemma validate_user_cost previous path user st :
  ∃ user' st',
    validate_user web previous (Some path) user st = (Fulfilled user', st') ∧
    navigations st' =
      (navigations st + if suspicious previous user then 1 else 0)%nat ∧
    (suspicious previous user = false → user' = user ∧ st' = st) ∧
    (user' = user ∨
     ∃ name d d', user = Profile name d ∧ user' = Profile name d' ∧
                  totalVideos d + 5 < totalVideos d').
Proof.
  destruct (suspicious previous user) eqn:Hsus.
  - destruct user as [name d|name e]; [|done].
    destruct (suspicious_number _ _ _ Hsus) as [pv Hprev].
    destruct (validate_user_refetch web previous path name d pv st Hprev Hsus)
      as (retryResult & st1 & _ & Hname & Hnav & ->).
    eexists _, _. split; [reflexivity|]. split; [cbn; lia|]. split; [done|].
    destruct retryResult as [name' d'|name' e']; cbn [corrects]; [|by left].
    destruct (pv <=? totalVideos d') eqn:Hpv; [|by left].
    right. cbn in Hname. subst name'. exists name, d, d'. repeat split.
    cbn [suspicious] in Hsus. rewrite Hprev in Hsus. unfold videoBufferCount in Hsus. lia.
  - exists user, st. rewrite validate_user_calm by done.
    split; [done|]. split; [lia|]. split; [done|by left].
Qed.

Lemma previous_fold_last (l : list Entry) : ∀ (m : gmap string (option Z)) name,
  name ≠ "__proto__" →
  foldl (λ map user, Object_set map (username user) (totalVideos_of user)) m l !! name =
  match last (filter (λ user, username user = name) l) with
  | Some user => Some (totalVideos_of user)
  | None => m !! name
  end.
Proof.
  induction l as [|x l IH]; intros m name Hname; [done|].
  cbn [foldl]. rewrite IH by done. rewrite filter_cons. case_decide as Hx.
  - rewrite last_cons. destruct (last (filter _ l)); [done|].
    rewrite <- Hx in Hname |- *. by apply Object_set_same.
  - destruct (last (filter _ l)); [done|]. by rewrite Object_set_other.
Qed.

Lemma validateVideoCounts_total report path results : ∀ st,
  ∃ validated st',
    validateVideoCounts web results (Some report) (Some path) st = (Fulfilled validated, st').
Proof.
  induction results as [|user rest IH]; intros st; [by eexists _, _|].
  rewrite validateVideoCounts_step.
  destruct (validate_user_keeps web (previousResults report) path user st)
    as (user' & st1 & -> & _).
  destruct (IH st1) as (rest' & st2 & ->). by eexists _, _.
Qed.

(** The run of the loop around the entry at position [i]: the state that
    the entries before it leave is the one its iteration starts in. *)
Lemma validateVideoCounts_at report path : ∀ i results user st,
  results !! i = Some user →
  ∃ before st_i user' st_u validated st',
    validateVideoCounts web (take i results) (Some report) (Some path) st
      = (Fulfilled before, st_i) ∧
    validate_user web (previousResults report) (Some path) user st_i
      = (Fulfilled user', st_u) ∧
    validateVideoCounts web (take (S i) results) (Some report) (Some path) st
      = (Fulfilled (before ++ [user']), st_u) ∧
    validateVideoCounts web results (Some report) (Some path) st
      = (Fulfilled validated, st') ∧
    validated !! i = Some user'.
Proof.
  induction i as [|i IH]; intros [|x rest] user st Hi; try done.
  - cbn in Hi. injection Hi as ->.
    destruct (validate_user_keeps web (previousResults report) path user st)
      as (user' & st1 & Huser & _).
    destruct (validateVideoCounts_total report path rest st1) as (rest' & st2 & Hrest).
    exists [], st, user', st1, (user' :: rest'), st2.
    split; [done|]. split; [done|]. split; [|split; [|done]].
    + cbn [take]. rewrite validateVideoCounts_step, Huser. done.
    + by rewrite validateVideoCounts_step, Huser, Hrest.
  - cbn in Hi.
    destruct (validate_user_keeps web (previousResults report) path x st)
      as (x' & st1 & Hx & _).
    destruct (IH rest user st1 Hi)
      as (before & st_i & user' & st_u & validated & st' & Hbefore & Huser & Hupto & Hall & Hat).
    exists (x' :: before), st_i, user', st_u, (x' :: validated), st'.
    split; [|split; [done|]; split; [|split; [|done]]].
    + cbn [take]. by rewrite validateVideoCounts_step, Hx, Hbefore.
    + cbn [take]. by rewrite validateVideoCounts_step, Hx, Hupto.
    + by rewrite validateVideoCounts_step, Hx, Hall.
Qed.

(** X9.  With a log file, [validateVideoCounts] always returns, and it
    navigates exactly once per suspicious entry of the results, never for
    an error entry or without a last report; when no entry is suspicious the
    results come back as they are and nothing else happens. *)
Theorem validateVideoCounts_cost (results : list Entry) (lastReport : option Report)
    (path : string) (st : Env) :
  ∃ validated st',
    validateVideoCounts web results lastReport (Some path) st = (Fulfilled validated, st') ∧
    navigations st' = (navigations st + refetches lastReport results)%nat ∧
    (refetches lastReport results ≤ length (List.filter no_error results))%nat ∧
    (refetches lastReport results = 0%nat → validated = results ∧ st' = st).
Proof.
  destruct lastReport as [report|].
  2:{ exists results, st. cbn. repeat split; lia. }
  cbn [refetches]. revert st.
  induction results as [|user rest IH]; intros st.
  { exists [], st. cbn. repeat split; lia. }
  rewrite validateVideoCounts_step.
  destruct (validate_user_cost (previousResults report) path user st)
    as (user' & st1 & -> & Hnav1 & Hcalm & _).
  destruct (IH st1) as (rest' & st2 & -> & Hnav & Hbound & Hnone).
  exists (user' :: rest'), st2. split; [done|]. cbn [List.filter].
  destruct (suspicious (previousResults report) user) eqn:Hsus.
  - assert (no_error user = true) as -> by (by destruct user).
    cbn [length]. split; [lia|]. split; [lia|done].
  - destruct (Hcalm eq_refl) as [-> ->]. split; [lia|]. split.
    + destruct (no_error user); cbn [length]; lia.
    + intros Hzero. by destruct (Hnone Hzero) as [-> ->].
Qed.

(** X10.  Validation never lowers a video count: an entry either comes back
    as it was, or as a profile of the same username with more than five
    videos more; so the total of videos after validation is at least the
    total before. *)
Theorem validateVideoCounts_raises_counts (usernames : list string) (results : list Entry)
    (lastReport : option Report) (path : string) (st : Env) :
  ∃ validated st',
    validateVideoCounts web results lastReport (Some path) st = (Fulfilled validated, st') ∧
    Forall2
      (λ user user',
         user' = user ∨
         ∃ name d d', user = Profile name d ∧ user' = Profile name d' ∧
                      totalVideos d + 5 < totalVideos d')
      results validated ∧
    Totals.totalVideos (totals usernames results)
      ≤ Totals.totalVideos (totals usernames validated).
Proof.
  assert (Hsum : ∀ l k : list Entry,
    Forall2 (λ user user', or0 (totalVideos_of user) ≤ or0 (totalVideos_of user')) l k →
    Totals.totalVideos (totals usernames l) ≤ Totals.totalVideos (totals usernames k)).
  { intros l k Hlk. cbn [totals Totals.totalVideos]. rewrite !foldl_sum.
    induction Hlk as [|x y l k Hxy _ IH]; [done|]. cbn in *. unfold sum_Z in *. lia. }
  assert (Hrun : ∃ validated st',
    validateVideoCounts web results lastReport (Some path) st = (Fulfilled validated, st') ∧
    Forall2
      (λ user user',
         user' = user ∨
         ∃ name d d', user = Profile name d ∧ user' = Profile name d' ∧
                      totalVideos d + 5 < totalVideos d')
      results validated).
  { destruct lastReport as [report|].
    2:{ exists results, st. split; [done|]. apply Forall_Forall2_diag, Forall_forall. auto. }
    revert st. induction results as [|user rest IH]; intros st.
    { exists [], st. split; [done|constructor]. }
    rewrite validateVideoCounts_step.
    destruct (validate_user_cost (previousResults report) path user st)
      as (user' & st1 & -> & _ & _ & Huser).
    destruct (IH st1) as (rest' & st2 & -> & Hrest).
    exists (user' :: rest'), st2. split; [done|]. by constructor. }
  destruct Hrun as (validated & st' & Hrun & Hall).
  exists validated, st'. split; [done|]. split; [done|].
  apply Hsum. eapply Forall2_impl; [exact Hall|].
  intros user user' [->|(name & d & d' & -> & -> & Hmore)]; [done|]. cbn. lia.
Qed.

(** X28.  What [validateVideoCounts] does with the profile at a position
    of the results, when the last report, which lists every username once,
    holds a profile of the same username and the username is not
    [__proto__].  The entry is flagged exactly when its video count plus
    five is below the recorded count.  An entry that is not flagged comes
    back as it is, and its turn changes nothing.  For a flagged entry the
    executor is called once with one attempt, in the state that the entries
    before it have left, and makes one navigation; in the list returned the
    entry is the corrective result exactly when that is a profile with at
    least the recorded count, and otherwise the entry as it was, with the
    message that the count could not be corrected. *)
Theorem validateVideoCounts_reconciles (results : list Entry) (lastReport : Report)
    (path : string) (st : Env) (i : nat) (name : string) (d dp : Data) :
  NoDup (username <$> report_results lastReport) →
  Profile name dp ∈ report_results lastReport →
  name ≠ "__proto__" →
  results !! i = Some (Profile name d) →
  ∃ before st_i validated st',
    validateVideoCounts web (take i results) (Some lastReport) (Some path) st
      = (Fulfilled before, st_i) ∧
    validateVideoCounts web results (Some lastReport) (Some path) st
      = (Fulfilled validated, st') ∧
    (suspicious (previousResults lastReport) (Profile name d) = true
       ↔ totalVideos d + 5 < totalVideos dp) ∧
    (suspicious (previousResults lastReport) (Profile name d) = false →
       validated !! i = Some (Profile name d) ∧
       validateVideoCounts web (take (S i) results) (Some lastReport) (Some path) st
         = (Fulfilled (before ++ [Profile name d]), st_i)) ∧
    (suspicious (previousResults lastReport) (Profile name d) = true →
       ∃ retryResult st1,
         scrapeTikTokProfile web name 1 (Some path)
           (printed (FewerVideos name (totalVideos d) (totalVideos dp)) st_i)
           = (Fulfilled retryResult, st1) ∧
         navigations st1 = S (navigations st_i) ∧
         validated !! i =
           Some (if corrects (totalVideos dp) retryResult then retryResult
                 else Profile name d) ∧
         validateVideoCounts web (take (S i) results) (Some lastReport) (Some path) st
           = (Fulfilled (before ++ [if corrects (totalVideos dp) retryResult
                                    then retryResult else Profile name d]),
              printed (if corrects (totalVideos dp) retryResult
                       then UpdatedCount name (or0 (totalVideos_of retryResult))
                       else NotCorrected name) st1)).
Proof.
  intros Hnodup Hin Hname Hi.
  destruct (validateVideoCounts_at lastReport path i results _ st Hi)
    as (before & st_i & user' & st_u & validated & st' & Hbefore & Huser & Hupto & Hall & Hat).
  destruct (validate_user_reconciles web lastReport path name d dp st_i Hnodup Hin Hname)
    as (Hflag & Hcalm & Hfetch).
  exists before, st_i, validated, st'.
  split; [done|]. split; [done|]. split; [done|]. split.
  - intros Hsus. rewrite (Hcalm Hsus) in Huser. injection Huser as <- <-. by split.
  - intros Hsus. destruct (Hfetch Hsus) as (retryResult & st1 & Hscrape & Hnav & Hrun).
    rewrite Hrun in Huser. injection Huser as <- <-.
    exists retryResult, st1. by repeat split.
Qed.

End ValidationCosts.

(** X11.  The dictionary that [validateVideoCounts] builds from the last
    report is an object literal.  [__proto__] always reads as the prototype,
    because a number assigned to that key is dropped.  Any other username
    reads as the video count of the last entry of that name in the report,
    which is [undefined] for an error entry: of two entries with one name
    the later one wins.  A username that the report does not list reads as
    [undefined], unless it is the name of a member of [Object.prototype],
    which it then reads as. *)
Theorem previousResults_last_entry (lastReport : Report) (name : string) :
  Object_get (previousResults lastReport) "__proto__" = Inherited ∧
  (name ≠ "__proto__" →
   Object_get (previousResults lastReport) name =
   match last (filter (λ user, username user = name) (report_results lastReport)) with
   | Some (Profile _ d) => NumberValue (totalVideos d)
   | Some (ErrorEntry _ _) => UndefinedValue
   | None => if bool_decide (name ∈ Object_prototype_keys) then Inherited
             else UndefinedValue
   end).
Proof.
  split; [apply previousResults_proto|]. intros Hname.
  unfold Object_get, previousResults. rewrite previous_fold_last by done.
  destruct (last _) as [[n d|n e]|]; [done..|]. by rewrite lookup_empty.
Qed.

(** * Further properties of the totals, the differences and the rankings *)

Lemma sum_Z_perm (l k : list Z) : l ≡ₚ k → sum_Z l = sum_Z k.
Proof.
  unfold sum_Z. induction 1 as [|x l k _ IH|x y l|l k m _ IH1 _ IH2]; cbn; lia.
Qed.

(** X12.  For results whose counters are whole numbers, none negative, and
    whose totals stay in the range in which doubles add without rounding,
    the totals do not depend on the order of the results: a list with the
    same entries in another order gives the same totals. *)
Theorem totals_order_free (usernames : list string) (results results' : list Entry) :
  results ≡ₚ results' →
  Forall counted results →
  exact_totals (totals usernames results) →
  totals usernames results = totals usernames results'.
Proof.
  intros Hperm _ _. unfold totals. rewrite !foldl_sum.
  f_equal; f_equal; apply sum_Z_perm; by apply fmap_Permutation.
Qed.

(** X13.  For totals that are whole numbers in the range in which doubles
    subtract and add without rounding: against the totals that an earlier
    run persisted, [calculateDifferences] never fails, every current total
    is the earlier one plus its delta, and the deltas are all zero exactly
    when the totals are the same. *)
Theorem differences_add_up (current previous : Totals.t) :
  exact_totals current →
  exact_totals previous →
  ∃ deltas,
    calculateDifferences current (Some (persisted previous)) = Fulfilled deltas ∧
    Totals.totalUsers current = Totals.totalUsers previous + Totals.totalUsers deltas ∧
    Totals.totalVideos current = Totals.totalVideos previous + Totals.totalVideos deltas ∧
    Totals.totalFollowers current
      = Totals.totalFollowers previous + Totals.totalFollowers deltas ∧
    Totals.totalLikes current = Totals.totalLikes previous + Totals.totalLikes deltas ∧
    Totals.totalViews current = Totals.totalViews previous + Totals.totalViews deltas ∧
    (deltas = no_change ↔ current = previous).
Proof.
  intros _ _. eexists. split; [reflexivity|]. cbn. repeat split; try lia.
  - intros [= ? ? ? ? ?]. destruct current, previous; cbn in *. f_equal; lia.
  - intros ->. unfold no_change. f_equal; lia.
Qed.

Section RankingSize.

Context (toFixed1 : Z → Z → string).

(** X14.  A ranking lists as many entries as the count allows (five
    without a count) or as there are profiles, whichever is less; when the
    count covers them it lists every profile; and when every result is an
    error entry the string returned is empty. *)
Theorem getTopUsers_size (results : list Entry) (metric : Metric) (count : option nat) :
  length (getTopUsers_entries results metric count)
    = Nat.min (default 5%nat count) (length (List.filter no_error results)) ∧
  ((length (List.filter no_error results) ≤ default 5 count)%nat →
   getTopUsers_entries results metric count ≡ₚ List.filter no_error results) ∧
  (Forall (λ user, no_error user = false) results →
   getTopUsers toFixed1 results metric count = "").
Proof.
  unfold getTopUsers, getTopUsers_entries.
  pose proof (Array_sort_perm metric (List.filter no_error results)) as Hperm.
  pose proof (Permutation_length Hperm) as Hlen.
  split; [|split].
  - rewrite length_take. lia.
  - intros Hcount. rewrite take_ge by lia. done.
  - intros Herrors.
    assert (Hnone : List.filter no_error results = []).
    { clear -Herrors. induction Herrors as [|x l Hx _ IH]; [done|]. cbn. by rewrite Hx. }
    rewrite Hnone. cbn. by rewrite take_nil.
Qed.

End RankingSize.

(** * Properties of the reader of usernames *)

Section Trimming.

Lemma trimStart_cases s :
  trimStart s = "" ∨ ∃ c rest, trimStart s = String c rest ∧ is_space c = false.
Proof.
  induction s as [|c s IH]; [by left|]. cbn.
  destruct (is_space c) eqn:Hc; [done|]. right. by exists c, s.
Qed.

Lemma trimEnd_keep c s : is_space c = false → trimEnd (String c s) = String c (trimEnd s).
Proof. intros Hc. cbn. rewrite Hc. by destruct (trimEnd s). Qed.

Lemma trimEnd_idem s : trimEnd (trimEnd s) = trimEnd s.
Proof.
  induction s as [|c s IH]; [done|]. cbn [trimEnd].
  destruct (trimEnd s) as [|k kept] eqn:Hkept.
  - destruct (is_space c) eqn:Hc; [done|]. cbn. by rewrite Hc.
  - change (trimEnd (String c (String k kept))) with
      (match trimEnd (String k kept) with
       | "" => if is_space c then "" else String c ""
       | String a b => String c (String a b)
       end).
    by rewrite IH.
Qed.

Lemma trim_idem s : trim (trim s) = trim s.
Proof.
  unfold trim. destruct (trimStart_cases s) as [->|(c & rest & -> & Hc)]; [done|].
  rewrite (trimEnd_keep c rest Hc). cbn [trimStart]. rewrite Hc.
  rewrite <- (trimEnd_keep c rest Hc). apply trimEnd_idem.
Qed.

Lemma trimStart_blank s : trimStart s = "" ↔ blank s = true.
Proof.
  induction s as [|c s IH]; [done|]. cbn. destruct (is_space c); [done|]. by split.
Qed.

Lemma trimEnd_blank s : trimEnd s = "" ↔ blank s = true.
Proof.
  induction s as [|c s IH]; [done|]. cbn.
  destruct (trimEnd s) as [|k kept].
  - destruct (is_space c); cbn; [tauto|done].
  - split; [done|]. intros [_ Hs]%andb_prop. by apply IH in Hs.
Qed.

Lemma trim_blank s : trim s = "" ↔ blank s = true.
Proof.
  unfold trim. rewrite trimEnd_blank, <- (trimStart_blank s), <- (trimStart_blank (trimStart s)).
  destruct (trimStart_cases s) as [Hs|(c & rest & Hs & Hc)]; rewrite Hs; [done|].
  cbn. by rewrite Hc.
Qed.

Lemma occurs_trimStart c s : occurs c s = false → occurs c (trimStart s) = false.
Proof.
  induction s as [|a s IH]; [done|]. cbn. destruct (is_space a); [|done].
  intros [_ Hs]%orb_false_elim. by apply IH.
Qed.

Lemma occurs_trimEnd c s : occurs c s = false → occurs c (trimEnd s) = false.
Proof.
  induction s as [|a s IH]; [done|]. cbn.
  intros [Ha Hs]%orb_false_elim. specialize (IH Hs).
  destruct (trimEnd s) as [|k kept].
  - destruct (is_space a); cbn; [done|]. by rewrite Ha.
  - cbn in IH |- *. by rewrite Ha, IH.
Qed.

Lemma occurs_trim c s : occurs c s = false → occurs c (trim s) = false.
Proof. intros Hs. by apply occurs_trimEnd, occurs_trimStart. Qed.

End Trimming.

Section Splitting.

Context (separator : ascii).

Lemma split_on_cons s : ∃ piece pieces, split_on separator s = piece :: pieces.
Proof.
  induction s as [|c s (piece & pieces & IH)]; [by eexists _, _|]. cbn [split_on].
  destruct (Ascii.eqb c separator); [by eexists _, _|]. rewrite IH. by eexists _, _.
Qed.

(** Splitting goes through a separator. *)
Lemma split_on_app a b :
  split_on separator (a +:+ String separator b)
  = split_on separator a ++ split_on separator b.
Proof.
  induction a as [|c a IH].
  - change ("" +:+ String separator b) with (String separator b).
    cbn [split_on]. by rewrite Ascii.eqb_refl.
  - change (String c a +:+ String separator b) with (String c (a +:+ String separator b)).
    cbn [split_on]. rewrite IH.
    destruct (Ascii.eqb c separator); [done|].
    by destruct (split_on_cons a) as (piece & pieces & ->).
Qed.

Lemma split_on_pieces s : Forall (λ piece, occurs separator piece = false) (split_on separator s).
Proof.
  induction s as [|c s IH]; [by repeat constructor|]. cbn [split_on].
  destruct (Ascii.eqb c separator) eqn:Hc; [by constructor|].
  destruct (split_on_cons s) as (piece & pieces & Hs). rewrite Hs in IH |- *.
  inversion IH; subst. constructor; [|done]. cbn [occurs]. by rewrite Hc.
Qed.

Lemma split_on_whole s : occurs separator s = false → split_on separator s = [s].
Proof.
  induction s as [|c s IH]; [done|]. cbn [occurs split_on].
  intros [-> Hs]%orb_false_elim. by rewrite IH.
Qed.

End Splitting.

Section SetOrder.

Implicit Types (set items : list string).

Lemma Set_fold_facts items : ∀ set,
  NoDup set →
  NoDup (foldl Set_add set items) ∧
  set `prefix_of` foldl Set_add set items ∧
  (∀ x, x ∈ foldl Set_add set items ↔ x ∈ set ∨ x ∈ items) ∧
  (NoDup (set ++ items) → foldl Set_add set items = set ++ items).
Proof.
  induction items as [|x items IH]; intros set Hset; cbn [foldl].
  { rewrite app_nil_r. split; [done|]. split; [done|]. split; [|done].
    intros x. split; [by left|]. by intros [?|?%elem_of_nil]. }
  unfold Set_add at 2 4 6 8. case_decide as Hx.
  - destruct (IH set Hset) as (Hnodup & Hprefix & Hin & Hid).
    split; [done|]. split; [done|]. split.
    + intros y. rewrite Hin, elem_of_cons. split; [tauto|].
      intros [?|[->|?]]; auto.
    + intros Hdup. apply NoDup_app in Hdup as (_ & Hdisj & _).
      exfalso. apply (Hdisj x Hx). by left.
  - assert (Hset' : NoDup (set ++ [x])).
    { apply NoDup_app. split; [done|]. split; [|apply NoDup_singleton].
      intros y Hy ->%list_elem_of_singleton. done. }
    destruct (IH (set ++ [x]) Hset') as (Hnodup & Hprefix & Hin & Hid).
    split; [done|]. split; [|split].
    + etrans; [|exact Hprefix]. by apply prefix_app_r.
    + intros y. rewrite Hin, elem_of_app, list_elem_of_singleton, elem_of_cons. tauto.
    + intros Hdup. rewrite Hid; by rewrite <- app_assoc.
Qed.

End SetOrder.

Section Reader.

Lemma split_join_lines (names : list string) :
  Forall (λ name, occurs LF name = false) names →
  names ≠ [] →
  split_on LF (join newline names) = names.
Proof.
  induction 1 as [|x names Hx Hnames IH]; intros Hne; [done|].
  destruct names as [|y names].
  - cbn [join]. by apply split_on_whole.
  - change (join newline (x :: y :: names))
      with (x +:+ String LF (join newline (y :: names))).
    rewrite split_on_app, split_on_whole by done. by rewrite IH.
Qed.

Lemma nonblank_lines (lines : list string) :
  List.filter truthy_string (trim <$> lines) = []
  ↔ Forall (λ line, blank line = true) lines.
Proof.
  induction lines as [|line lines IH]; [by split; [constructor|]|].
  rewrite fmap_cons. cbn [List.filter]. rewrite Forall_cons, <- IH, <- trim_blank.
  destruct (trim line); cbn; [tauto|]. split; [done|]. by intros [? _].
Qed.

Lemma Array_from_Set_nil (items : list string) : Array_from_Set items = [] ↔ items = [].
Proof.
  split; [|by intros ->]. intros Hset.
  destruct items as [|x items]; [done|].
  destruct (Set_fold_facts (x :: items) [] (NoDup_nil_2 (A:=string))) as (_ & _ & Hin & _).
  fold (Array_from_Set (x :: items)) in Hin. rewrite Hset in Hin.
  exfalso. eapply elem_of_nil, Hin. right. by left.
Qed.

(** X15.  The usernames read from a file are all different; none is empty,
    has anything left to trim or spans a line; and they are exactly the
    trimmed lines of the file that are not blank.  The count that is logged
    is their number. *)
Theorem readUsernamesFromFile_clean (data : string) :
  NoDup (readUsernamesFromFile (Content data)).1 ∧
  Forall clean_username (readUsernamesFromFile (Content data)).1 ∧
  (∀ name, name ∈ (readUsernamesFromFile (Content data)).1
           ↔ name ≠ "" ∧ ∃ line, line ∈ split_on LF data ∧ trim line = name) ∧
  (readUsernamesFromFile (Content data)).2
    = LoadedUsernames (length (readUsernamesFromFile (Content data)).1).
Proof.
  cbn [readUsernamesFromFile fst snd].
  destruct (Set_fold_facts (List.filter truthy_string (trim <$> split_on LF data)) []
              (NoDup_nil_2 (A:=string))) as (Hnodup & _ & Hin & _).
  fold (Array_from_Set (List.filter truthy_string (trim <$> split_on LF data))) in *.
  assert (Hmember : ∀ name,
    name ∈ Array_from_Set (List.filter truthy_string (trim <$> split_on LF data))
    ↔ name ≠ "" ∧ ∃ line, line ∈ split_on LF data ∧ trim line = name).
  { intros name. rewrite Hin. split.
    - intros [?%elem_of_nil|Hname]; [done|].
      apply list_elem_of_In, filter_In in Hname as [Hline Hname].
      apply list_elem_of_In, list_elem_of_fmap in Hline as (line & -> & Hline).
      split; [by destruct (trim line)|by exists line].
    - intros [Hname (line & Hline & <-)]. right.
      apply list_elem_of_In, filter_In. split; [|by destruct (trim line)].
      apply list_elem_of_In, list_elem_of_fmap. by exists line. }
  split; [done|]. split; [|done].
  apply Forall_forall. intros name [Hname (line & Hline & <-)]%Hmember.
  split; [done|]. split; [apply trim_idem|].
  apply occurs_trim. pose proof (split_on_pieces LF data) as Hpieces.
  rewrite Forall_forall in Hpieces. by apply Hpieces.
Qed.

(** X16.  A list of different, clean usernames written one per line is read
    back as it is: same names, same order. *)
Theorem readUsernamesFromFile_written (names : list string) :
  NoDup names →
  Forall clean_username names →
  (readUsernamesFromFile (Content (join newline names))).1 = names.
Proof.
  intros Hnodup Hclean. cbn [readUsernamesFromFile fst].
  destruct names as [|x names]; [done|].
  rewrite split_join_lines; [| |done].
  2:{ eapply Forall_impl; [exact Hclean|]. by intros name (_ & _ & ?). }
  assert (Htrim : trim <$> (x :: names) = x :: names).
  { clear Hnodup. induction Hclean as [|y l (_ & Hy & _) _ IH]; [done|].
    by rewrite fmap_cons, Hy, IH. }
  assert (Hkeep : List.filter truthy_string (x :: names) = x :: names).
  { clear Hnodup Htrim. induction Hclean as [|y l (Hy & _ & _) _ IH]; [done|].
    cbn [List.filter]. rewrite IH. by destruct y. }
  rewrite Htrim, Hkeep.
  by apply (Set_fold_facts (x :: names) [] (NoDup_nil_2 (A:=string))).
Qed.

(** X17.  Lines added at the end of the file leave the usernames read so
    far where they are: the shorter file's list is the beginning of the
    longer file's list. *)
Theorem readUsernamesFromFile_appended (data more : string) :
  (readUsernamesFromFile (Content data)).1
    `prefix_of` (readUsernamesFromFile (Content (data +:+ String LF more))).1.
Proof.
  cbn [readUsernamesFromFile fst].
  rewrite split_on_app, fmap_app, List.filter_app.
  unfold Array_from_Set. rewrite foldl_app.
  apply Set_fold_facts. by apply (Set_fold_facts _ [] (NoDup_nil_2 (A:=string))).
Qed.

(** X18.  The run stops at once with exit code 1 exactly when the file of
    usernames cannot be read or has nothing but blank lines; otherwise it
    goes on with the usernames read. *)
Theorem main_usernames_exit (file : FileRead) :
  (main_usernames file = None
   ↔ match file with
     | ReadError _ => True
     | Content data => Forall (λ line, blank line = true) (split_on LF data)
     end) ∧
  (main_usernames file = None ∨
   main_usernames file = Some (readUsernamesFromFile file).1).
Proof.
  unfold main_usernames. split.
  - destruct file as [data|message]; [|done]. cbn [readUsernamesFromFile fst].
    rewrite <- nonblank_lines, <- Array_from_Set_nil.
    destruct (Array_from_Set _); cbn; [done|]. split; done.
  - destruct (length _ =? 0)%nat; auto.
Qed.

End Reader.

(** * Properties of the search for the last report *)

Section SortedNames.

Implicit Types (l : list string) (x y : string).

Lemma compare_strings_leb x y : (compare_strings x y <=? 0) = String.leb x y.
Proof. unfold compare_strings, String.leb. by destruct (String.compare x y). Qed.

Lemma NoDup_filter_bool (f : string → bool) l : NoDup l → NoDup (List.filter f l).
Proof.
  induction 1 as [|x l Hx _ IH]; [constructor|]. cbn [List.filter].
  destruct (f x); [|done]. constructor; [|done].
  intros Hin. apply list_elem_of_In, filter_In in Hin as [Hin _]. by apply list_elem_of_In in Hin.
Qed.

Lemma names_insert_perm x l : sort_insert compare_strings x l ≡ₚ x :: l.
Proof.
  induction l as [|y l IH]; [done|]. cbn [sort_insert].
  destruct (compare_strings x y <=? 0); [done|].
  rewrite IH. apply Permutation_swap.
Qed.

Lemma names_sort_perm l : Array_sort compare_strings l ≡ₚ l.
Proof.
  induction l as [|x l IH]; [done|]. cbn [Array_sort foldr].
  rewrite names_insert_perm. by f_equiv.
Qed.

Lemma names_insert_sorted x l :
  StronglySorted String.le l →
  StronglySorted String.le (sort_insert compare_strings x l).
Proof.
  induction 1 as [|y l Hl IH Hy]; cbn [sort_insert].
  - repeat constructor.
  - rewrite compare_strings_leb. destruct (String.leb x y) eqn:Hxy.
    + assert (Hle : String.le x y) by (unfold String.le; by rewrite Hxy).
      constructor; [by constructor|]. constructor; [done|].
      eapply Forall_impl; [exact Hy|]. intros z Hz. by etrans.
    + assert (Hle : String.le y x).
      { destruct (total String.le x y) as [Hle|Hle]; [|done].
        unfold String.le in Hle. by rewrite Hxy in Hle. }
      constructor; [done|]. rewrite names_insert_perm. by constructor.
Qed.

Lemma names_sort_sorted l : StronglySorted String.le (Array_sort compare_strings l).
Proof.
  induction l as [|x l IH]; [constructor|]. by apply names_insert_sorted.
Qed.

(** The order of the listing does not reach past the sort. *)
Lemma names_sort_unique l k :
  l ≡ₚ k → Array_sort compare_strings l = Array_sort compare_strings k.
Proof.
  intros Hperm. apply (StronglySorted_unique String.le); [apply names_sort_sorted..|].
  by rewrite !names_sort_perm.
Qed.

End SortedNames.

Section Folder.

Implicit Types (folder : list (string * ReportFile)).

Lemma read_report_member folder name file :
  NoDup (fst <$> folder) →
  (name, file) ∈ folder →
  read_report folder name = file.
Proof.
  unfold read_report. induction folder as [|[name' file'] folder IH]; intros Hnodup Hin.
  { by apply elem_of_nil in Hin. }
  rewrite fmap_cons in Hnodup. apply NoDup_cons in Hnodup as [Hfresh Hnodup].
  cbn [List.find fst]. destruct (String.eqb_spec name' name) as [->|Hne].
  - apply elem_of_cons in Hin as [[= <-]|Hin]; [done|].
    exfalso. apply Hfresh. apply list_elem_of_fmap. by exists (name, file).
  - apply elem_of_cons in Hin as [[= ? ?]|Hin]; [done|]. by apply IH.
Qed.

Lemma read_report_listed folder name :
  name ∈ fst <$> folder → (name, read_report folder name) ∈ folder.
Proof.
  unfold read_report. induction folder as [|[name' file'] folder IH]; intros Hin.
  { by apply elem_of_nil in Hin. }
  cbn [List.find fst]. destruct (String.eqb_spec name' name) as [->|Hne]; [by left|].
  rewrite fmap_cons in Hin. apply elem_of_cons in Hin as [?|Hin]; [done|].
  right. by apply IH.
Qed.

Lemma read_report_filter folder name :
  is_report_file name = true →
  read_report (List.filter (λ entry, is_report_file entry.1) folder) name
  = read_report folder name.
Proof.
  intros Hname. unfold read_report.
  induction folder as [|[name' file'] folder IH]; [done|]. cbn [List.filter List.find fst].
  destruct (String.eqb_spec name' name) as [->|Hne].
  - rewrite Hname. cbn [List.find fst]. by rewrite String.eqb_refl.
  - destruct (is_report_file name'); [|done]. cbn [List.find fst].
    by destruct (String.eqb_spec name' name).
Qed.

Lemma read_report_perm folder folder' name :
  NoDup (fst <$> folder) →
  folder ≡ₚ folder' →
  read_report folder' name = read_report folder name.
Proof.
  intros Hnodup Hperm.
  destruct (decide (name ∈ fst <$> folder)) as [Hin|Hout].
  - apply read_report_member; [by rewrite <- Hperm|].
    rewrite <- Hperm. by apply read_report_listed.
  - assert (Hnone : ∀ f : list (string * ReportFile), name ∉ fst <$> f →
              List.find (λ entry, String.eqb entry.1 name) f = None).
    { induction f as [|[name' file'] f IH]; [done|]. rewrite fmap_cons, not_elem_of_cons.
      intros [Hne Hf]. cbn [List.find fst].
      destruct (String.eqb_spec name' name); [done|]. by apply IH. }
    unfold read_report. rewrite !Hnone; [done|done|by rewrite <- Hperm].
Qed.

Lemma names_filter_filter folder :
  List.filter is_report_file (fst <$> List.filter (λ entry, is_report_file entry.1) folder)
  = List.filter is_report_file (fst <$> folder).
Proof.
  induction folder as [|[name file] folder IH]; [done|]. cbn [List.filter fst fmap list_fmap].
  destruct (is_report_file name) eqn:Hname; [|done].
  cbn [fmap list_fmap fst List.filter]. rewrite Hname. f_equal. apply IH.
Qed.

End Folder.

Section Scan.

Context (valid_date : string → bool).
Implicit Types (folder : list (string * ReportFile)).

Lemma scan_reports_undated folder passed rest :
  Forall (λ name, undated valid_date (read_report folder name) = true) passed →
  scan_reports valid_date folder (passed ++ rest) = scan_reports valid_date folder rest.
Proof.
  induction 1 as [|name passed Hname _ IH]; [done|]. cbn [app scan_reports].
  destruct (read_report folder name) as [message|[t|] results totals]; [done| |done].
  cbn in Hname. apply negb_true_iff in Hname. by rewrite Hname.
Qed.

Lemma scan_reports_decided folder name earlier :
  undated valid_date (read_report folder name) = false →
  scan_reports valid_date folder (name :: earlier) = settles_with (read_report folder name).
Proof.
  cbn [scan_reports]. destruct (read_report folder name) as [message|[t|] results totals];
    [done| |done].
  cbn. intros Ht%negb_false_iff. by rewrite Ht.
Qed.

Lemma scan_reports_agree folder folder' names :
  Forall (λ name, read_report folder' name = read_report folder name) names →
  scan_reports valid_date folder' names = scan_reports valid_date folder names.
Proof.
  induction 1 as [|name names Hname _ IH]; [done|]. cbn [scan_reports].
  rewrite Hname, IH. done.
Qed.

(** The search ends at the latest report file that is not passed over. *)
Lemma loadLastReport_decided folder name file :
  NoDup (fst <$> folder) →
  (name, file) ∈ folder →
  is_report_file name = true →
  undated valid_date file = false →
  (∀ later file', (later, file') ∈ folder → is_report_file later = true →
     String.ltb name later = true → undated valid_date file' = true) →
  loadLastReport valid_date folder = settles_with file.
Proof.
  intros Hnodup Hin Hname Hfile Hlater. unfold loadLastReport.
  set (listed := List.filter is_report_file (fst <$> folder)).
  set (sorted := Array_sort compare_strings listed).
  assert (Hlisted : ∀ x, x ∈ sorted ↔ x ∈ fst <$> folder ∧ is_report_file x = true).
  { intros x. unfold sorted, listed.
    rewrite names_sort_perm, list_elem_of_In, filter_In, <- list_elem_of_In. done. }
  assert (Hmember : name ∈ sorted).
  { apply Hlisted. split; [|done]. apply list_elem_of_fmap. by exists (name, file). }
  assert (Hunique : NoDup sorted).
  { unfold sorted, listed. rewrite names_sort_perm. by apply NoDup_filter_bool. }
  apply list_elem_of_split in Hmember as (before & after & Hsplit).
  pose proof (names_sort_sorted listed) as Hsorted. fold sorted in Hsorted.
  rewrite Hsplit in Hsorted, Hunique, Hlisted.
  apply StronglySorted_app_1_r, StronglySorted_cons in Hsorted as [Hafter _].
  apply NoDup_app in Hunique as (_ & _ & Hunique).
  apply NoDup_cons in Hunique as [Hfresh _].
  rewrite Hsplit. rewrite length_app. cbn [length].
  replace (length before + S (length after) =? 0)%nat with false
    by (symmetry; apply Nat.eqb_neq; lia).
  rewrite reverse_app, reverse_cons, <- app_assoc.
  rewrite scan_reports_undated.
  - pose proof (read_report_member _ _ _ Hnodup Hin) as Hread.
    cbn [app]. rewrite scan_reports_decided; rewrite Hread; [reflexivity|exact Hfile].
  - apply Forall_forall. intros later Hlater_in. rewrite elem_of_reverse in Hlater_in.
    assert (Hl : later ∈ fst <$> folder ∧ is_report_file later = true).
    { apply Hlisted. rewrite elem_of_app, elem_of_cons. right. by right. }
    destruct Hl as [Hfolder Hreport].
    apply (Hlater later); [by apply read_report_listed|done|].
    rewrite Forall_forall in Hafter. specialize (Hafter later Hlater_in).
    unfold String.le, String.leb in Hafter. unfold String.ltb.
    destruct (String.compare name later) eqn:Hcmp; [|done|by cbn in Hafter].
    apply String.compare_eq_iff in Hcmp. by subst later.
Qed.

End Scan.

Section LastReportFacts.

Context (valid_date : string → bool).
Implicit Types (folder : list (string * ReportFile)).

Lemma report_names_listed folder name :
  name ∈ reverse (Array_sort compare_strings (List.filter is_report_file (fst <$> folder)))
  ↔ name ∈ fst <$> folder ∧ is_report_file name = true.
Proof.
  by rewrite elem_of_reverse, names_sort_perm, list_elem_of_In, filter_In, <- list_elem_of_In.
Qed.

Lemma filter_bool_perm (f : string → bool) (l k : list string) :
  l ≡ₚ k → List.filter f l ≡ₚ List.filter f k.
Proof.
  induction 1 as [|x l k _ IH|x y l|l k m _ IH1 _ IH2]; cbn [List.filter].
  - done.
  - destruct (f x); by rewrite IH.
  - destruct (f x), (f y); try done. apply Permutation_swap.
  - by etrans.
Qed.

(** X19.  Files of the reports folder whose names do not start with
    [tiktok_results_] and end with [.json], the retry log among them, are
    never opened: with or without them the search gives the same. *)
Theorem loadLastReport_ignores_other_files folder :
  loadLastReport valid_date (List.filter (λ entry, is_report_file entry.1) folder)
  = loadLastReport valid_date folder.
Proof.
  unfold loadLastReport. rewrite names_filter_filter.
  destruct (length _ =? 0)%nat; [done|].
  apply scan_reports_agree, Forall_forall. intros name [_ Hname]%report_names_listed.
  by apply read_report_filter.
Qed.

(** X20.  In a folder that lists every name once, the search is decided by
    the latest report file, in the order of the names, that is not a
    document without a usable timestamp: when that file is a document with
    a timestamp that is a date, its report is returned, and when it cannot
    be read or parsed the search throws, earlier reports notwithstanding. *)
Theorem loadLastReport_latest folder name file :
  NoDup (fst <$> folder) →
  (name, file) ∈ folder →
  is_report_file name = true →
  (∀ later file', (later, file') ∈ folder → is_report_file later = true →
     String.ltb name later = true → undated valid_date file' = true) →
  (∀ t results totals,
     file = ParsedReport (Some t) results totals → t ≠ "" → valid_date t = true →
     loadLastReport valid_date folder =
       Fulfilled (Some {| report_timestamp := t;
                          report_results := results;
                          report_totals := totals |}, false)) ∧
  (∀ message,
     file = Unparsable message →
     loadLastReport valid_date folder = Rejected message).
Proof.
  intros Hnodup Hin Hname Hlater. split.
  - intros t results totals -> Ht Hvalid.
    rewrite (loadLastReport_decided valid_date folder name _ Hnodup Hin Hname); [done| |done].
    cbn. rewrite Hvalid. by destruct t.
  - intros message ->.
    by rewrite (loadLastReport_decided valid_date folder name _ Hnodup Hin Hname).
Qed.

(** X21.  Without any report file the search returns nothing and says
    nothing; with report files that are all documents without a usable
    timestamp it returns nothing as well, after the warning that no valid
    timestamp was found. *)
Theorem loadLastReport_nothing folder :
  (Forall (λ entry, is_report_file entry.1 = false) folder →
   loadLastReport valid_date folder = Fulfilled (None, false)) ∧
  (Exists (λ entry, is_report_file entry.1 = true) folder →
   Forall (λ entry, is_report_file entry.1 = true → undated valid_date entry.2 = true)
     folder →
   loadLastReport valid_date folder = Fulfilled (None, true)).
Proof.
  unfold loadLastReport. split.
  - intros Hnone.
    assert (Hlisted : List.filter is_report_file (fst <$> folder) = []).
    { induction Hnone as [|[name file] folder Hname _ IH]; [done|].
      cbn in Hname |- *. by rewrite Hname. }
    by rewrite Hlisted.
  - intros Hsome Hall.
    set (sorted := Array_sort compare_strings (List.filter is_report_file (fst <$> folder))).
    assert (Hlen : (length sorted =? 0)%nat = false).
    { apply Nat.eqb_neq. apply Exists_exists in Hsome as ([name file] & Hin & Hname).
      assert (Hmember : name ∈ reverse sorted).
      { apply report_names_listed. split; [|done]. apply list_elem_of_fmap. by exists (name, file). }
      rewrite elem_of_reverse in Hmember. destruct sorted; [by apply elem_of_nil in Hmember|done]. }
    rewrite Hlen. rewrite <- (app_nil_r (reverse sorted)).
    rewrite scan_reports_undated; [done|].
    apply Forall_forall. intros name [Hfolder Hname]%report_names_listed.
    apply read_report_listed in Hfolder. rewrite Forall_forall in Hall.
    by apply (Hall _ Hfolder).
Qed.

(** X22.  The order in which the folder lists its files does not matter:
    two listings of the same files, each name once, give the same. *)
Theorem loadLastReport_listing_order folder folder' :
  NoDup (fst <$> folder) →
  folder ≡ₚ folder' →
  loadLastReport valid_date folder' = loadLastReport valid_date folder.
Proof.
  intros Hnodup Hperm. unfold loadLastReport.
  assert (Hsorted :
    Array_sort compare_strings (List.filter is_report_file (fst <$> folder'))
    = Array_sort compare_strings (List.filter is_report_file (fst <$> folder))).
  { apply names_sort_unique, filter_bool_perm. by rewrite Hperm. }
  rewrite Hsorted. destruct (length _ =? 0)%nat; [done|].
  apply scan_reports_agree, Forall_forall. intros name _.
  by apply read_report_perm.
Qed.

End LastReportFacts.

Section FileNames.

Lemma prefix_append (p s : string) : String.prefix p (p +:+ s) = true.
Proof.
  induction p as [|c p IH]; [by destruct s|].
  change (String c p +:+ s) with (String c (p +:+ s)). cbn [String.prefix].
  by destruct (ascii_dec c c).
Qed.

Lemma endsWith_append (suffix s : string) : endsWith suffix (s +:+ suffix) = true.
Proof.
  induction s as [|c s IH].
  - change ("" +:+ suffix) with suffix. destruct suffix; cbn; [done|].
    by rewrite Ascii.eqb_refl, String.eqb_refl.
  - change (String c s +:+ suffix) with (String c (s +:+ suffix)).
    cbn [endsWith]. rewrite IH. apply orb_true_r.
Qed.

Lemma endsWith_behind (p suffix s : string) :
  endsWith suffix s = true → endsWith suffix (p +:+ s) = true.
Proof.
  intros Hs. induction p as [|c p IH]; [done|].
  change (String c p +:+ s) with (String c (p +:+ s)). cbn [endsWith].
  rewrite IH. apply orb_true_r.
Qed.

Lemma outputFileName_listed (now : string) : is_report_file (outputFileName now) = true.
Proof.
  unfold is_report_file, outputFileName. rewrite prefix_append. cbn [andb].
  apply endsWith_behind, endsWith_append.
Qed.

Lemma occurs_replaced (c : ascii) (iso : string) :
  (Ascii.eqb c ":" || Ascii.eqb c ".") = true →
  occurs c (replace_colons_periods iso) = false.
Proof.
  intros Hc. induction iso as [|a iso IH]; [done|]. cbn [replace_colons_periods occurs].
  rewrite IH, orb_false_r. apply orb_true_iff in Hc as [->%Ascii.eqb_eq| ->%Ascii.eqb_eq];
    by destruct (Ascii.eqb a ":" || Ascii.eqb a ".") eqn:Ha;
      [|apply orb_false_elim in Ha as [? ?]].
Qed.

Lemma length_replaced (iso : string) :
  String.length (replace_colons_periods iso) = String.length iso.
Proof. induction iso as [|a iso IH]; [done|]. cbn. by rewrite IH. Qed.

Lemma length_append (a b : string) :
  String.length (a +:+ b) = (String.length a + String.length b)%nat.
Proof.
  induction a as [|c a IH]; [done|].
  change (String c a +:+ b) with (String c (a +:+ b)). cbn [String.length plus].
  by rewrite IH.
Qed.

Lemma compare_refl (s : string) : String.compare s s = Eq.
Proof.
  induction s as [|c s IH]; [done|]. cbn [String.compare].
  assert (Ascii.compare c c = Eq) as -> by (unfold Ascii.compare; apply N.compare_refl).
  done.
Qed.

Lemma compare_behind_prefix (p a b : string) :
  String.compare (p +:+ a) (p +:+ b) = String.compare a b.
Proof.
  induction p as [|c p IH]; [done|].
  change (String c p +:+ ?s) with (String c (p +:+ s)). cbn [String.compare].
  assert (Ascii.compare c c = Eq) as -> by (unfold Ascii.compare; apply N.compare_refl).
  done.
Qed.

Lemma compare_replaced (suffix : string) : ∀ a b,
  aligned a b →
  String.compare (replace_colons_periods a +:+ suffix) (replace_colons_periods b +:+ suffix)
  = String.compare a b.
Proof.
  induction a as [|c a IH]; intros [|d b] Hab; try done.
  { cbn. apply compare_refl. }
  destruct Hab as [Hcd Hab]. specialize (IH b Hab).
  cbn [replace_colons_periods].
  change (String ?x ?s +:+ suffix) with (String x (s +:+ suffix)).
  cbn [String.compare]. rewrite IH.
  destruct Hcd as [->|[-> ->]]; [|done].
  assert (Href : ∀ x, Ascii.compare x x = Eq) by (intros x; unfold Ascii.compare; apply N.compare_refl).
  by rewrite !Href.
Qed.

(** X23.  Whatever the timestamp, the name of the report file starts with
    [tiktok_results_] and ends with [.json], which is what the search of the
    next run looks for; between the two it has the timestamp's length and
    neither a colon nor a period. *)
Theorem outputFileName_is_report_file (now : string) :
  is_report_file (outputFileName now) = true ∧
  String.length (outputFileName now) = (20 + String.length now)%nat ∧
  occurs ":" (replace_colons_periods now) = false ∧
  occurs "." (replace_colons_periods now) = false.
Proof.
  split; [|split; [|split]].
  - apply outputFileName_listed.
  - unfold outputFileName. rewrite !length_append, length_replaced. cbn. lia.
  - by apply occurs_replaced.
  - by apply occurs_replaced.
Qed.

(** X24.  Two timestamps of the same layout, colons and periods in the same
    places as [toISOString] puts them, give report file names that compare
    as the timestamps do: the sort of the search follows the time of the
    runs. *)
Theorem outputFileName_order (a b : string) :
  aligned a b →
  String.compare (outputFileName a) (outputFileName b) = String.compare a b.
Proof.
  intros Hab. unfold outputFileName.
  rewrite compare_behind_prefix. by apply compare_replaced.
Qed.

(** X25.  The report that a run writes is the one that the next run finds:
    in a folder that lists every name once, holds the file named after the
    timestamp with a document carrying that timestamp, and has no report
    file with a later name, the search returns that document. *)
Theorem written_report_is_found (valid_date : string → bool)
    (folder : list (string * ReportFile)) (now : string) (results : list Entry)
    (totals : option PreviousTotals.t) :
  NoDup (fst <$> folder) →
  (outputFileName now, ParsedReport (Some now) results totals) ∈ folder →
  now ≠ "" →
  valid_date now = true →
  (∀ other file, (other, file) ∈ folder → is_report_file other = true →
     String.ltb (outputFileName now) other = false) →
  loadLastReport valid_date folder =
    Fulfilled (Some {| report_timestamp := now;
                       report_results := results;
                       report_totals := totals |}, false).
Proof.
  intros Hnodup Hin Hnow Hvalid Hlatest.
  rewrite (loadLastReport_decided valid_date folder (outputFileName now) _ Hnodup Hin).
  - done.
  - apply outputFileName_listed.
  - cbn. rewrite Hvalid. by destruct now.
  - intros later file' Hin' Hreport Hlt. by rewrite (Hlatest later file' Hin' Hreport) in Hlt.
Qed.

End FileNames.

(** * Further properties of the configuration *)

Lemma loadConfig_batchSize (file : ConfigFile) : (1 ≤ batchSize (loadConfig file).1)%nat.
Proof. destruct file as [[r l [[|b]|]]|message]; cbn; lia. Qed.

Lemma rounds_within (n size : nat) : (1 ≤ size)%nat → (rounds n size ≤ n)%nat.
Proof.
  intros Hsize. unfold rounds. apply Nat.lt_succ_r, Nat.Div0.div_lt_upper_bound. nia.
Qed.

(** X26.  Whatever [config.json] holds, the batch size that comes out of
    [loadConfig] is at least one, so the loop of [processInBatches] that the
    main function starts with it ends once the promises of every batch have
    settled, after no more rounds than there are usernames: the standstill
    of a batch size of zero cannot come from the configuration. *)
Theorem configured_batches_settle {R} (file : ConfigFile) (usernames : list string)
    (task : string → option string → settled R) (logFilePath : option string)
    (completion : nat → list nat) :
  (∀ i j, (j < length (slice i (i + batchSize (loadConfig file).1) usernames))%nat →
          j ∈ completion i) →
  ∃ outcome bar,
    processInBatches usernames (batchSize (loadConfig file).1) task logFilePath completion
      (length usernames) = Some (outcome, bar).
Proof.
  intros Hsettle. unfold processInBatches.
  apply (batches_loop_settles usernames _ task logFilePath completion
           (loadConfig_batchSize file) Hsettle).
  rewrite Nat.sub_0_r. apply rounds_within, loadConfig_batchSize.
Qed.

(** X27.  The defaults of three attempts and five ranks are used only when
    [config.json] cannot be loaded.  A file that loads passes [retries] and
    [rankLimit] on as they are, missing if they are missing, and with
    [retries] missing or zero the executor answers every username with the
    failure entry without a single navigation, log line or message. *)
Theorem config_without_retries (web : string → nat → PageRun) (config : Config)
    (message : string) :
  (loadConfig (ConfigError message)).1
    = {| retries := Some 3%nat; rankLimit := Some 5%nat; batchSize := 5 |} ∧
  retries (loadConfig (ConfigObject config)).1 = cfg_retries config ∧
  rankLimit (loadConfig (ConfigObject config)).1 = cfg_rankLimit config ∧
  (cfg_retries config = None ∨ cfg_retries config = Some 0%nat →
   ∀ name logFilePath st,
     scrapeTikTokProfile web name
       (attempts_allowed (retries (loadConfig (ConfigObject config)).1)) logFilePath st
     = (Fulfilled (ErrorEntry name failed_message), st)).
Proof.
  split; [done|]. split; [done|]. split; [done|].
  intros Hretries name logFilePath st. cbn [loadConfig fst retries].
  by destruct Hretries as [-> | ->].
Qed.

(** * The further properties at work on sample runs *)

Lemma scraped_profile_is_last_rendering_witness :
  ∃ st',
    scrapeTikTokProfile web_flaky "ana" 3 (Some sample_log) env0
      = (Fulfilled (Profile "ana" (extract (sample_page 2))), st') ∧
    navigations st' = 3%nat ∧
    web_flaky (profile_url "ana") 2 = Rendered (sample_page 2) ∧
    totalVideos (extract (sample_page 2)) = 2 ∧
    totalViews (extract (sample_page 2)) = 14 ∧
    ∃ content, web_flaky (profile_url "ana") (navigations st' - 1) = Rendered content ∧
               extract (sample_page 2) = extract content.
Proof.
  eexists.
  assert (Hrun : scrapeTikTokProfile web_flaky "ana" 3 (Some sample_log) env0
                 = (Fulfilled (Profile "ana" (extract (sample_page 2))), _))
    by (vm_compute; reflexivity).
  split; [exact Hrun|].
  split; [reflexivity|]. split; [reflexivity|]. split; [reflexivity|]. split; [reflexivity|].
  exact (proj2 (proj2 (proj2 (proj2 (proj2
    (scraped_profile_is_last_rendering web_flaky "ana" 3 (Some sample_log) env0 _ "ana"
       (extract (sample_page 2)) Hrun)))))).
Defined.

Lemma scrape_without_log_path_rejects_witness :
  (1 < 3)%nat ∧
  web_empty_then_reset (profile_url "ana") 0 = Rendered (sample_page 0) ∧
  caught_message "ana" (web_empty_then_reset (profile_url "ana") 1)
    = Some "net::ERR_CONNECTION_RESET" ∧
  includes "Timeout" "net::ERR_CONNECTION_RESET" = false ∧
  scrapeTikTokProfile web_empty_then_reset "ana" 3 None env0 =
    (Rejected "TypeError [ERR_INVALID_ARG_TYPE]: The path argument must be of type string",
     {| navigations := 2; appended := []; console := [] |}).
Proof.
  assert (H1 : (1 < 3)%nat) by lia.
  assert (H2 : ∀ j, (j < 1)%nat → ∃ c,
            web_empty_then_reset (profile_url "ana") (navigations env0 + j) = Rendered c ∧
            pc_items c = []).
  { intros j Hj. assert (j = 0%nat) as -> by lia. by exists (sample_page 0). }
  assert (H3 : caught_message "ana"
                 (web_empty_then_reset (profile_url "ana") (navigations env0 + 1))
               = Some "net::ERR_CONNECTION_RESET") by reflexivity.
  assert (H4 : includes "Timeout" "net::ERR_CONNECTION_RESET" = false) by reflexivity.
  split; [exact H1|]. split; [reflexivity|]. split; [exact H3|]. split; [exact H4|].
  exact (scrape_without_log_path_rejects web_empty_then_reset "ana" 3 env0 1
           "net::ERR_CONNECTION_RESET" H1 H2 H3 H4).
Defined.

Lemma missing_profile_navigations_witness :
  (1 ≤ 3)%nat ∧
  web_missing (profile_url "ghost") 0 = ErrorPage ∧
  includes "Timeout" "ghost" = false ∧
  (∃ st',
     scrapeTikTokProfile web_missing "ghost" 3 (Some sample_log) env0 =
       (Fulfilled (ErrorEntry "ghost" failed_message), st') ∧
     navigations st' = (navigations env0 + 3)%nat) ∧
  scrapeTikTokProfile web_missing "ghost" 3 None env0 =
    (Rejected "TypeError [ERR_INVALID_ARG_TYPE]: The path argument must be of type string",
     navigated env0) ∧
  includes "Timeout" "TimeoutTim" = true ∧
  scrapeTikTokProfile web_missing "TimeoutTim" 3 None env0 =
    (Fulfilled (ErrorEntry "TimeoutTim" failed_message),
     printed (TimeoutExceeded "TimeoutTim") (navigated env0)).
Proof.
  assert (H1 : (1 ≤ 3)%nat) by lia.
  assert (H2 : ∀ name n, web_missing (profile_url name) n = ErrorPage) by reflexivity.
  split; [exact H1|]. split; [reflexivity|]. split; [reflexivity|].
  split; [|split; [|split; [reflexivity|]]].
  - exact (missing_profile_navigations web_missing "ghost" 3 (Some sample_log) env0
             H1 (H2 "ghost")).
  - exact (missing_profile_navigations web_missing "ghost" 3 None env0 H1 (H2 "ghost")).
  - exact (missing_profile_navigations web_missing "TimeoutTim" 3 None env0
             H1 (H2 "TimeoutTim")).
Defined.

Lemma processInBatches_returns_fulfilments_witness :
  ∃ bar,
    processInBatches sample_usernames 3 sample_task None (completion_reversed 3) 7
      = Some (Fulfilled sample_outcomes, bar) ∧
    Forall2 (λ name outcome, sample_task name None = Fulfilled outcome)
      sample_usernames sample_outcomes ∧
    bar_value bar = length sample_usernames ∧
    bar_total bar = length sample_usernames ∧
    bar_active bar = false.
Proof.
  eexists.
  assert (Hrun : processInBatches sample_usernames 3 sample_task None (completion_reversed 3) 7
                 = Some (Fulfilled sample_outcomes, _)) by (vm_compute; reflexivity).
  split; [exact Hrun|].
  exact (processInBatches_returns_fulfilments sample_usernames 3 sample_task None
           (completion_reversed 3) 7 sample_outcomes _ Hrun).
Defined.

Lemma processInBatches_rounds_witness :
  (1 ≤ 3)%nat ∧
  Forall2 (λ name outcome, sample_task name None = Fulfilled outcome)
    sample_usernames sample_outcomes ∧
  rounds (length sample_usernames) 3 = 3%nat ∧
  processInBatches sample_usernames 3 sample_task None (completion_reversed 3) 2 = None ∧
  ∃ bar, processInBatches sample_usernames 3 sample_task None (completion_reversed 3) 3
         = Some (Fulfilled sample_outcomes, bar).
Proof.
  assert (H1 : (1 ≤ 3)%nat) by lia.
  assert (H2 : Forall2 (λ name outcome, sample_task name None = Fulfilled outcome)
                 sample_usernames sample_outcomes) by (repeat constructor).
  assert (H3 : ∀ i j, (j < length (slice i (i + 3) sample_usernames))%nat →
                      j ∈ completion_reversed 3 i).
  { intros i j Hj. unfold slice in Hj. rewrite length_take in Hj.
    assert (Hj' : (j < 3)%nat) by lia.
    destruct j as [|[|[|j]]]; [unfold completion_reversed; cbn; repeat constructor..|lia]. }
  assert (Hfew : (2 < rounds (length sample_usernames) 3)%nat) by (vm_compute; lia).
  assert (Henough : (rounds (length sample_usernames) 3 ≤ 3)%nat) by (vm_compute; lia).
  split; [exact H1|]. split; [exact H2|]. split; [reflexivity|]. split.
  - exact (proj1 (processInBatches_rounds sample_usernames 3 sample_task None
                    (completion_reversed 3) sample_outcomes 2 H1 H2 H3) Hfew).
  - exact (proj2 (processInBatches_rounds sample_usernames 3 sample_task None
                    (completion_reversed 3) sample_outcomes 3 H1 H2 H3) Henough).
Defined.

Lemma processInBatches_zero_batch_hangs_witness :
  length sample_usernames = 7%nat ∧
  processInBatches sample_usernames 0 sample_task None (completion_reversed 0) 1000 = None.
Proof.
  assert (H1 : sample_usernames ≠ []) by discriminate.
  split; [reflexivity|].
  exact (processInBatches_zero_batch_hangs sample_usernames sample_task None
           (completion_reversed 0) 1000 H1).
Defined.

Lemma processInBatches_rejects_witness :
  (1 ≤ 3)%nat ∧
  (rounds (length sample_usernames) 3 ≤ 3)%nat ∧
  "eve" ∈ sample_usernames ∧
  sample_failing_task "eve" None = Rejected "Error: Failed to launch the browser process" ∧
  ∃ reason' bar name',
    processInBatches sample_usernames 3 sample_failing_task None (completion_reversed 3) 3
      = Some (Rejected reason', bar) ∧
    name' ∈ sample_usernames ∧ sample_failing_task name' None = Rejected reason'.
Proof.
  assert (H1 : (1 ≤ 3)%nat) by lia.
  assert (H2 : ∀ i j, (j < length (slice i (i + 3) sample_usernames))%nat →
                      j ∈ completion_reversed 3 i).
  { intros i j Hj. unfold slice in Hj. rewrite length_take in Hj.
    assert (Hj' : (j < 3)%nat) by lia.
    destruct j as [|[|[|j]]]; [unfold completion_reversed; cbn; repeat constructor..|lia]. }
  assert (H3 : (rounds (length sample_usernames) 3 ≤ 3)%nat) by (vm_compute; lia).
  assert (H4 : "eve" ∈ sample_usernames) by (unfold sample_usernames; repeat constructor).
  assert (H5 : sample_failing_task "eve" None
               = Rejected "Error: Failed to launch the browser process") by reflexivity.
  split; [exact H1|]. split; [exact H3|]. split; [exact H4|]. split; [exact H5|].
  exact (processInBatches_rejects sample_usernames 3 sample_failing_task None
           (completion_reversed 3) 3 "eve" _ H1 H2 H3 H4 H5).
Defined.

Lemma totals_order_free_witness :
  sample_results ≡ₚ reverse sample_results ∧
  Forall counted sample_results ∧
  exact_totals (totals sample_names sample_results) ∧
  totals sample_names sample_results = totals sample_names (reverse sample_results).
Proof.
  assert (H1 : sample_results ≡ₚ reverse sample_results) by (symmetry; apply reverse_Permutation).
  assert (H2 : Forall counted sample_results)
    by (unfold sample_results; repeat constructor; vm_compute; discriminate).
  assert (H3 : exact_totals (totals sample_names sample_results))
    by (repeat split; vm_compute; discriminate).
  split; [exact H1|]. split; [exact H2|]. split; [exact H3|].
  exact (totals_order_free sample_names sample_results (reverse sample_results) H1 H2 H3).
Defined.

Lemma differences_add_up_witness :
  exact_totals sample_totals ∧
  exact_totals (totals sample_names sample_results) ∧
  ∃ deltas,
    calculateDifferences sample_totals (Some (persisted (totals sample_names sample_results)))
      = Fulfilled deltas ∧
    Totals.totalVideos sample_totals
      = Totals.totalVideos (totals sample_names sample_results) + Totals.totalVideos deltas ∧
    Totals.totalVideos deltas = -5.
Proof.
  assert (H1 : exact_totals sample_totals) by (repeat split; vm_compute; discriminate).
  assert (H2 : exact_totals (totals sample_names sample_results))
    by (repeat split; vm_compute; discriminate).
  split; [exact H1|]. split; [exact H2|].
  destruct (differences_add_up sample_totals (totals sample_names sample_results) H1 H2)
    as (deltas & Hrun & _ & Hvideos & _).
  exists deltas. split; [exact Hrun|]. split; [exact Hvideos|].
  injection Hrun as <-. reflexivity.
Defined.

Lemma readUsernamesFromFile_written_witness :
  NoDup sample_names ∧
  Forall clean_username sample_names ∧
  (readUsernamesFromFile (Content (join newline sample_names))).1 = sample_names.
Proof.
  assert (H1 : NoDup sample_names)
    by (apply (bool_decide_unpack _); vm_compute; exact I).
  assert (H2 : Forall clean_username sample_names).
  { unfold sample_names. repeat constructor; discriminate. }
  split; [exact H1|]. split; [exact H2|].
  exact (readUsernamesFromFile_written sample_names H1 H2).
Defined.

(** Goes through the files of a folder that is written out. *)
Ltac each_file Hin :=
  repeat (apply elem_of_cons in Hin as [Hin|Hin];
          [injection Hin as -> ->|]);
  [..|by apply elem_of_nil in Hin].

Lemma loadLastReport_latest_witness :
  NoDup (fst <$> sample_folder_undated) ∧
  (outputFileName sample_now, sample_report_file) ∈ sample_folder_undated ∧
  is_report_file (outputFileName sample_now) = true ∧
  sample_valid_date sample_now = true ∧
  loadLastReport sample_valid_date sample_folder_undated = Fulfilled (Some sample_report, false).
Proof.
  assert (H1 : NoDup (fst <$> sample_folder_undated))
    by (apply (bool_decide_unpack _); vm_compute; exact I).
  assert (H2 : (outputFileName sample_now, sample_report_file) ∈ sample_folder_undated)
    by (unfold sample_folder_undated, sample_folder; repeat constructor).
  assert (H3 : is_report_file (outputFileName sample_now) = true) by (vm_compute; reflexivity).
  assert (H4 : ∀ later file', (later, file') ∈ sample_folder_undated →
            is_report_file later = true →
            String.ltb (outputFileName sample_now) later = true →
            undated sample_valid_date file' = true).
  { intros later file' Hin Hreport Hlater. each_file Hin;
      vm_compute in Hreport, Hlater |- *; congruence. }
  assert (H5 : sample_now ≠ "") by discriminate.
  assert (H6 : sample_valid_date sample_now = true) by (vm_compute; reflexivity).
  split; [exact H1|]. split; [exact H2|]. split; [exact H3|]. split; [exact H6|].
  exact (proj1 (loadLastReport_latest sample_valid_date sample_folder_undated
                  (outputFileName sample_now) sample_report_file H1 H2 H3 H4)
           sample_now _ _ eq_refl H5 H6).
Defined.

Lemma loadLastReport_listing_order_witness :
  NoDup (fst <$> sample_folder_undated) ∧
  sample_folder_undated ≡ₚ reverse sample_folder_undated ∧
  loadLastReport sample_valid_date (reverse sample_folder_undated)
    = loadLastReport sample_valid_date sample_folder_undated.
Proof.
  assert (H1 : NoDup (fst <$> sample_folder_undated))
    by (apply (bool_decide_unpack _); vm_compute; exact I).
  assert (H2 : sample_folder_undated ≡ₚ reverse sample_folder_undated)
    by (symmetry; apply reverse_Permutation).
  split; [exact H1|]. split; [exact H2|].
  exact (loadLastReport_listing_order sample_valid_date sample_folder_undated
           (reverse sample_folder_undated) H1 H2).
Defined.

Lemma outputFileName_order_witness :
  aligned sample_now "2024-06-10T08:00:00.000Z" ∧
  String.compare (outputFileName sample_now) (outputFileName "2024-06-10T08:00:00.000Z")
    = String.compare sample_now "2024-06-10T08:00:00.000Z".
Proof.
  assert (H1 : aligned sample_now "2024-06-10T08:00:00.000Z").
  { cbn [sample_now aligned]. repeat (split; [(by left) || (by right)|]). exact I. }
  split; [exact H1|].
  exact (outputFileName_order sample_now "2024-06-10T08:00:00.000Z" H1).
Defined.

Lemma written_report_is_found_witness :
  NoDup (fst <$> sample_folder) ∧
  (outputFileName sample_now, sample_report_file) ∈ sample_folder ∧
  sample_valid_date sample_now = true ∧
  loadLastReport sample_valid_date sample_folder = Fulfilled (Some sample_report, false).
Proof.
  assert (H1 : NoDup (fst <$> sample_folder))
    by (apply (bool_decide_unpack _); vm_compute; exact I).
  assert (H2 : (outputFileName sample_now, sample_report_file) ∈ sample_folder)
    by (unfold sample_folder; repeat constructor).
  assert (H3 : sample_now ≠ "") by discriminate.
  assert (H4 : sample_valid_date sample_now = true) by (vm_compute; reflexivity).
  assert (H5 : ∀ other file, (other, file) ∈ sample_folder →
            is_report_file other = true →
            String.ltb (outputFileName sample_now) other = false).
  { intros other file Hin Hreport. each_file Hin;
      vm_compute in Hreport |- *; congruence. }
  split; [exact H1|]. split; [exact H2|]. split; [exact H4|].
  exact (written_report_is_found sample_valid_date sample_folder sample_now
           (report_results sample_report) (report_totals sample_report) H1 H2 H3 H4 H5).
Defined.

Lemma configured_batches_settle_witness :
  batchSize (loadConfig (ConfigObject sample_config)).1 = 5%nat ∧
  ∃ outcome bar,
    processInBatches sample_usernames (batchSize (loadConfig (ConfigObject sample_config)).1)
      sample_task None (completion_reversed 5) (length sample_usernames)
    = Some (outcome, bar).
Proof.
  assert (H1 : ∀ i j,
    (j < length (slice i (i + batchSize (loadConfig (ConfigObject sample_config)).1)
                   sample_usernames))%nat →
    j ∈ completion_reversed 5 i).
  { intros i j Hj. unfold slice in Hj. rewrite length_take in Hj.
    change (batchSize (loadConfig (ConfigObject sample_config)).1) with 5%nat in Hj.
    assert (Hj' : (j < 5)%nat) by lia.
    destruct j as [|[|[|[|[|j]]]]]; [unfold completion_reversed; cbn; repeat constructor..|lia]. }
  split; [reflexivity|].
  exact (configured_batches_settle (ConfigObject sample_config) sample_usernames
           sample_task None (completion_reversed 5) H1).
Defined.

Lemma validateVideoCounts_reconciles_witness :
  NoDup (username <$> report_results sample_report) ∧
  sample_profile "alice" 20 ∈ report_results sample_report ∧
  sample_rerun !! 1%nat = Some (sample_profile "alice" 10) ∧
  suspicious (previousResults sample_report) (sample_profile "alice" 10) = true ∧
  (∃ validated st',
     validateVideoCounts (web_renders 21) sample_rerun (Some sample_report)
       (Some sample_log) env0 = (Fulfilled validated, st') ∧
     validated !! 1%nat = Some (Profile "alice" (extract (sample_page 21)))) ∧
  (∃ validated st',
     validateVideoCounts (web_renders 12) sample_rerun (Some sample_report)
       (Some sample_log) env0 = (Fulfilled validated, st') ∧
     validated !! 1%nat = Some (sample_profile "alice" 10)).
Proof.
  assert (H1 : NoDup (username <$> report_results sample_report))
    by (apply (bool_decide_unpack _); vm_compute; exact I).
  assert (H2 : sample_profile "alice" 20 ∈ report_results sample_report)
    by apply list_elem_of_here.
  assert (H3 : "alice" ≠ "__proto__") by discriminate.
  assert (H4 : sample_rerun !! 1%nat = Some (sample_profile "alice" 10)) by reflexivity.
  assert (Hsus : suspicious (previousResults sample_report) (sample_profile "alice" 10) = true)
    by (vm_compute; reflexivity).
  split; [exact H1|]. split; [exact H2|]. split; [exact H4|]. split; [exact Hsus|]. split.
  - destruct (validateVideoCounts_reconciles (web_renders 21) sample_rerun sample_report
                sample_log env0 1 "alice" _ _ H1 H2 H3 H4)
      as (before & st_i & validated & st' & Hbefore & Hall & _ & _ & Hfetch).
    destruct (Hfetch Hsus) as (retryResult & st1 & Hscrape & _ & Hat & _).
    vm_compute in Hbefore. injection Hbefore as <- <-.
    vm_compute in Hscrape. injection Hscrape as <- <-.
    exists validated, st'. split; [exact Hall|exact Hat].
  - destruct (validateVideoCounts_reconciles (web_renders 12) sample_rerun sample_report
                sample_log env0 1 "alice" _ _ H1 H2 H3 H4)
      as (before & st_i & validated & st' & Hbefore & Hall & _ & _ & Hfetch).
    destruct (Hfetch Hsus) as (retryResult & st1 & Hscrape & _ & Hat & _).
    vm_compute in Hbefore. injection Hbefore as <- <-.
    vm_compute in Hscrape. injection Hscrape as <- <-.
    exists validated, st'. split; [exact Hall|exact Hat].
Defined.
